(** * The Gaussian-process oracle of design-bench

    A shallow embedding of
    [design_bench/oracles/approximate/gaussian_process_oracle.py]:
    the [DiscreteSequenceKernel] class and the [GaussianProcessOracle]
    adapter ([check_input_format], [save_model_to_zip],
    [load_model_from_zip], [fit], [protected_score]).

    The file is organised as the Python module is:
    - [Py]: exceptions, and a value that may raise;
    - [np], [Array], [np_random]: the part of NumPy the module calls
      (arrays as a shape and a C-ordered buffer, integer-array indexing,
      [eye], [ones], [sum], [reshape], [newaxis], [random.choice]);
    - [world], [py], [PyM]: a statement that runs over the mutable state
      (the dataset's flag, the global RNG) and may raise, with a log of
      the calls made to the dataset, to NumPy's RNG and to the regressor;
    - [DiscreteSequenceKernel] and [GaussianProcessOracle]: the two
      classes, one definition per method, in source order;
    - then the statements about them, each after the facts it needs. *)

From Stdlib Require Import String.
From Stdlib Require Import List ZArith Lia Bool Permutation.
From Stdlib Require Import PrimFloat.
Import ListNotations.

Set Implicit Arguments.
Set Warnings "-inexact-float".

(* ================================================================== *)
(** * Python exceptions and effects *)
(* ================================================================== *)

Module Py.

(** The exceptions that the modelled code paths can raise.
    [LibraryError] stands for whatever an external collaborator
    (the dataset, scikit-learn, pickle) raises on its own. *)
Inductive exn : Type :=
| IndexError
| ValueError
| KeyError
| TypeError
| LibraryError (origin : string).

(** A Python expression either evaluates to a value or raises. *)
Inductive result (A : Type) : Type :=
| Ok (a : A)
| Raise (e : exn).
Arguments Ok {A} a.
Arguments Raise {A} e.

Definition bind {A B} (r : result A) (k : A -> result B) : result B :=
  match r with
  | Ok a => k a
  | Raise e => Raise e
  end.

(** [[f(a) for a in l]] where [f] may raise: the first exception wins. *)
Fixpoint mapM {A B} (f : A -> result B) (l : list A) : result (list B) :=
  match l with
  | [] => Ok []
  | a :: l' =>
      bind (f a) (fun b => bind (mapM f l') (fun bs => Ok (b :: bs)))
  end.

End Py.

Import Py.

Declare Scope result_scope.
Delimit Scope result_scope with result.
Notation "x <- c1 ;; c2" := (Py.bind c1 (fun x => c2))
  (at level 100, c1 at next level, right associativity) : result_scope.

(* ================================================================== *)
(** * Array elements *)
(* ================================================================== *)

(** The arithmetic of an array's dtype, as far as the module uses it. *)
Class Scalar (A : Type) : Type := {
  zero : A;
  one : A;
  add : A -> A -> A;
  mul : A -> A -> A
}.

(** float64: IEEE-754 binary64 with round-to-nearest-even, as NumPy's. *)
#[global] Instance float64 : Scalar float := {|
  zero := 0%float;
  one := 1%float;
  add := PrimFloat.add;
  mul := PrimFloat.mul
|}.

(** int64: two's complement, silently wrapping on overflow. *)
Definition wrap64 (z : Z) : Z :=
  ((z + 2 ^ 63) mod 2 ^ 64 - 2 ^ 63)%Z.

#[global] Instance int64 : Scalar Z := {|
  zero := 0%Z;
  one := 1%Z;
  add := fun a b => wrap64 (a + b);
  mul := fun a b => wrap64 (a * b)
|}.

(** An element type whose addition does not depend on the order of the
    operands.  int64 is one; float64 is not (rounding). *)
Class ExactAdd (A : Type) `{Scalar A} : Prop := {
  add_comm : forall a b : A, add a b = add b a;
  add_assoc : forall a b c : A, add (add a b) c = add a (add b c)
}.
Arguments ExactAdd A {_}.

(* ================================================================== *)
(** * NumPy *)
(* ================================================================== *)

Module np.

(** An n-dimensional array: its shape and its elements in C order. *)
Record ndarray (A : Type) : Type := mk_ndarray {
  shape : list nat;
  data : list A
}.

(** [np.prod] of a shape. *)
Definition prod (sh : list nat) : nat := fold_right Nat.mul 1 sh.

(** Every array NumPy builds holds exactly [prod shape] elements. *)
Definition well_formed {A} (a : ndarray A) : Prop :=
  length (data a) = prod (shape a).

(** An integer index into an axis of length [n]: negative indices count
    from the end, anything outside [-n, n) raises IndexError. *)
Definition normalize_index (n : nat) (i : Z) : result nat :=
  if ((0 <=? i) && (i <? Z.of_nat n))%Z then Ok (Z.to_nat i)
  else if ((- Z.of_nat n <=? i) && (i <? 0))%Z
       then Ok (Z.to_nat (i + Z.of_nat n))
       else Raise IndexError.

(** The [k]-th block of [sz] consecutive elements of a buffer. *)
Definition chunk {A} (sz k : nat) (d : list A) : list A :=
  firstn sz (skipn (k * sz) d).

(** [a[idx]] for an integer array [idx]: gathers sub-arrays along
    axis 0.  A 0-d array cannot be indexed. *)
Definition take0 {A} (a : ndarray A) (idx : list Z) : result (ndarray A) :=
  match shape a with
  | [] => Raise IndexError
  | d0 :: rest =>
      (ks <- mapM (normalize_index d0) idx ;;
       Ok {| shape := length idx :: rest;
             data := flat_map (fun k => chunk (prod rest) k (data a)) ks |})%result
  end.

(** [a[:, idx]]: gathers along axis 1, for every position of axis 0.
    The indices are checked against axis 1 even when axis 0 is empty. *)
Definition take1 {A} (a : ndarray A) (idx : list Z) : result (ndarray A) :=
  match shape a with
  | d0 :: d1 :: rest =>
      (js <- mapM (normalize_index d1) idx ;;
       Ok {| shape := d0 :: length idx :: rest;
             data :=
               flat_map
                 (fun i =>
                    let row := chunk (d1 * prod rest) i (data a) in
                    flat_map (fun j => chunk (prod rest) j row) js)
                 (seq 0 d0) |})%result
  | _ => Raise IndexError
  end.

(** [a.sum()] over all elements, accumulated in buffer order.  (NumPy
    is free to regroup a floating-point sum; results that depend on the
    order are stated for [ExactAdd] element types only.) *)
Definition sum {A} `{Scalar A} (a : ndarray A) : A :=
  fold_left add (data a) zero.

(** The scalar [a[i]] of a 1-d array and the scalar [a[i][j]] of a 2-d
    array. *)
Definition get1 {A} (a : ndarray A) (i : Z) : result A :=
  match shape a with
  | [d0] =>
      (i' <- normalize_index d0 i ;;
       match nth_error (data a) i' with
       | Some v => Ok v
       | None => Raise IndexError
       end)%result
  | _ => Raise IndexError
  end.

Definition get2 {A} (a : ndarray A) (i j : Z) : result A :=
  match shape a with
  | [d0; d1] =>
      (i' <- normalize_index d0 i ;;
       j' <- normalize_index d1 j ;;
       match nth_error (data a) (i' * d1 + j') with
       | Some v => Ok v
       | None => Raise IndexError
       end)%result
  | _ => Raise IndexError
  end.

(** [np.array(l)] for a flat list, and for a list of equally long
    lists (the only nested lists the module builds). *)
Definition array1 {A} (l : list A) : ndarray A :=
  {| shape := [length l]; data := l |}.

Definition array2 {A} (rows : list (list A)) : ndarray A :=
  match rows with
  | [] => {| shape := [0]; data := [] |}
  | r :: _ => {| shape := [length rows; length r]; data := concat rows |}
  end.

(** [np.eye(n)] and [np.ones((n, m))]. *)
Definition eye {A} `{Scalar A} (n : nat) : ndarray A :=
  {| shape := [n; n];
     data := flat_map
               (fun i => map (fun j => if Nat.eqb i j then one else zero)
                             (seq 0 n))
               (seq 0 n) |}.

Definition ones {A} `{Scalar A} (sh : list nat) : ndarray A :=
  {| shape := sh; data := repeat one (prod sh) |}.

(** [c * a] for a Python scalar [c], and [a + b] for two arrays of one
    shape (the module never adds arrays of different shapes). *)
Definition scale {A} `{Scalar A} (c : A) (a : ndarray A) : ndarray A :=
  {| shape := shape a; data := map (mul c) (data a) |}.

Definition plus {A} `{Scalar A} (a b : ndarray A) : ndarray A :=
  {| shape := shape a;
     data := map (fun p => add (fst p) (snd p)) (combine (data a) (data b)) |}.

(** [a[:, np.newaxis]]: a new axis of length 1 after axis 0. *)
Definition newaxis1 {A} (a : ndarray A) : result (ndarray A) :=
  match shape a with
  | [] => Raise IndexError
  | d0 :: rest => Ok {| shape := d0 :: 1 :: rest; data := data a |}
  end.

(** [a.reshape(sh)]: same buffer, new shape of the same size. *)
Definition reshape {A} (a : ndarray A) (sh : list nat) : result (ndarray A) :=
  if Nat.eqb (prod sh) (prod (shape a))
  then Ok {| shape := sh; data := data a |}
  else Raise ValueError.

(** [a.shape[0]]. *)
Definition shape0 {A} (a : ndarray A) : result nat :=
  match shape a with
  | [] => Raise IndexError
  | d0 :: _ => Ok d0
  end.

End np.

(* ================================================================== *)
(** * class DiscreteSequenceKernel *)
(* ================================================================== *)

Module DiscreteSequenceKernel.
Section Kernel.

Context {A : Type} `{Scalar A}.

(** The object state set by [__init__]. *)
Record t : Type := __init__ { kernel_matrix : np.ndarray A }.

(** [self.kernel_matrix[x][:, y].sum()] *)
Definition evaluate_kernel (self : t) (x y : list Z) : result A :=
  (r <- np.take0 (kernel_matrix self) x ;;
   s <- np.take1 r y ;;
   Ok (np.sum s))%result.

(** [np.array([[evaluate_kernel(x, y) for y in (X if Y is None else Y)]
               for x in X])] *)
Definition __call__ (self : t) (X : list (list Z))
           (Y : option (list (list Z))) (eval_gradient : bool)
  : result (np.ndarray A) :=
  (rows <- mapM (fun x =>
                   mapM (fun y => evaluate_kernel self x y)
                        (match Y with None => X | Some Y' => Y' end)) X ;;
   Ok (np.array2 rows))%result.

(** [np.array([evaluate_kernel(x, x) for x in X])] *)
Definition diag (self : t) (X : list (list Z)) : result (np.ndarray A) :=
  (vs <- mapM (fun x => evaluate_kernel self x x) X ;;
   Ok (np.array1 vs))%result.

Definition is_stationary (self : t) : bool := true.

End Kernel.
Arguments t A : clear implicits.
End DiscreteSequenceKernel.

(* ================================================================== *)
(** * The mutable world: a dataset's flag, the global RNG, a call log *)
(* ================================================================== *)

(** Arrays as the oracle meets them: the dtype is only ever asked whether
    it is a floating-point one ([np.issubdtype(x.dtype, np.floating)]). *)
Inductive array : Type :=
| FloatArray (a : np.ndarray float)
| IntArray (a : np.ndarray Z).

Module Array.

Definition is_floating (x : array) : bool :=
  match x with
  | FloatArray _ => true
  | IntArray _ => false
  end.

Definition shape (x : array) : list nat :=
  match x with
  | FloatArray a => np.shape a
  | IntArray a => np.shape a
  end.

Definition shape0 (x : array) : result nat :=
  match x with
  | FloatArray a => np.shape0 a
  | IntArray a => np.shape0 a
  end.

Definition take0 (x : array) (idx : list Z) : result array :=
  match x with
  | FloatArray a => (r <- np.take0 a idx ;; Ok (FloatArray r))%result
  | IntArray a => (r <- np.take0 a idx ;; Ok (IntArray r))%result
  end.

Definition reshape (x : array) (sh : list nat) : result array :=
  match x with
  | FloatArray a => (r <- np.reshape a sh ;; Ok (FloatArray r))%result
  | IntArray a => (r <- np.reshape a sh ;; Ok (IntArray r))%result
  end.

Definition newaxis1 (x : array) : result array :=
  match x with
  | FloatArray a => (r <- np.newaxis1 a ;; Ok (FloatArray r))%result
  | IntArray a => (r <- np.newaxis1 a ;; Ok (IntArray r))%result
  end.

End Array.

(** What [fit] asks of its collaborators, in the order it asks. *)
Inductive call : Type :=
| call_choice (a : nat) (size : Z)
| call_to_integers (x : array)
| call_normalize_x (x : array)
| call_normalize_y (y : array)
| call_model_fit (x y : array).

Record world : Type := mk_world {
  _disable_transform : bool;   (* dataset._disable_transform *)
  rng : list nat;              (* the draws np.random will make next *)
  calls : list call            (* ghost: collaborator calls so far, oldest first *)
}.

(** A statement: runs in a world, leaves a world, returns or raises.
    An exception leaves the world as it was when it was raised. *)
Definition py (A : Type) : Type := world -> world * result A.

Module PyM.

Definition ret {A} (a : A) : py A := fun w => (w, Ok a).

Definition bind {A B} (c : py A) (k : A -> py B) : py B :=
  fun w =>
    match c w with
    | (w', Ok a) => k a w'
    | (w', Raise e) => (w', Raise e)
    end.

Definition lift {A} (r : result A) : py A := fun w => (w, r).

Definition set_disable_transform (b : bool) : py unit :=
  fun w => ({| _disable_transform := b; rng := rng w; calls := calls w |},
            Ok tt).

Definition log (c : call) : py unit :=
  fun w => ({| _disable_transform := _disable_transform w;
               rng := rng w;
               calls := calls w ++ [c] |}, Ok tt).

End PyM.

Declare Scope py_scope.
Delimit Scope py_scope with py.
Notation "x <- c1 ;; c2" := (PyM.bind c1 (fun x => c2))
  (at level 100, c1 at next level, right associativity) : py_scope.
Notation "c1 ;; c2" := (PyM.bind c1 (fun _ => c2))
  (at level 100, right associativity) : py_scope.

Module np_random.

(** One step of a shuffle: the next draw picks one of the remaining
    elements of the pool. *)
Fixpoint shuffle (n : nat) (pool : list nat) (draws : list nat)
  : list nat * list nat :=
  match n, pool with
  | S n', p :: _ =>
      let k := hd 0 draws mod length pool in
      let (out, draws') :=
        shuffle n' (firstn k pool ++ skipn (S k) pool) (tl draws) in
      (nth k pool p :: out, draws')
  | _, _ => ([], draws)
  end.

(** [np.random.permutation(n)]: [arange(n)], shuffled. *)
Definition permutation (n : nat) (draws : list nat) : list nat * list nat :=
  shuffle n (seq 0 n) draws.

(** [np.random.choice(a, replace=False, size=size)] for an integer [a]:
    the first [size] elements of a permutation of [range(a)]. *)
Definition choice (a : nat) (size : Z) : py (list Z) :=
  (PyM.log (call_choice a size) ;;
   fun w =>
     if (Nat.eqb a 0 && negb (size =? 0)%Z)
        || (Z.of_nat a <? size)%Z || (size <? 0)%Z
     then (w, Raise ValueError)
     else
       let (perm, draws') := permutation a (rng w) in
       ({| _disable_transform := _disable_transform w;
           rng := draws';
           calls := calls w |},
        Ok (map Z.of_nat (firstn (Z.to_nat size) perm))))%py.

End np_random.

(* ================================================================== *)
(** * The collaborators of the oracle *)
(* ================================================================== *)

(** The dataset, as [fit] sees it.  [DatasetBuilder] and [DiscreteDataset]
    live outside the module; their methods are taken as given.  They may
    raise, and they do not touch [_disable_transform]. *)
Record DatasetBuilder : Type := {
  is_discrete : bool;     (* isinstance(dataset, DiscreteDataset) *)
  num_classes : nat;
  x : bool -> result array;   (* the property x, under a given flag *)
  y : bool -> result array;   (* the property y, under a given flag *)
  to_integers : array -> result array;
  normalize_x : array -> result array;
  normalize_y : array -> result array
}.

(** The [kernel] argument of [fit]: a NumPy matrix, or a scikit-learn
    kernel object made by the caller. *)
Inductive kernel_arg (K : Type) : Type :=
| kernel_array (m : array)
| kernel_object (k : K).
Arguments kernel_array {K} m.
Arguments kernel_object {K} k.

(** The kernel handed to the regressor. *)
Inductive gp_kernel (K : Type) : Type :=
| DiscreteSequence (kernel_matrix : kernel_arg K)
| RBF (length_scale : float) (length_scale_bounds : float * float)
| Supplied (k : kernel_arg K).
Arguments DiscreteSequence {K} kernel_matrix.
Arguments RBF {K} length_scale length_scale_bounds.
Arguments Supplied {K} k.

(** scikit-learn's [GaussianProcessRegressor]. *)
Class Sklearn : Type := {
  Kernel : Type;
  Kwargs : Type;
  Model : Type;
  GaussianProcessRegressor : gp_kernel Kernel -> Kwargs -> result Model;
  model_fit : Model -> array -> array -> result Model;
  model_predict : Model -> array -> result array
}.

(** [pickle], writing to and reading from a binary file.  [pkl_dump]
    gives the bytes that reached the file and whether it raised. *)
Class Pickle (M : Type) : Type := {
  pkl_dump : M -> list Byte.byte * result unit;
  pkl_load : list Byte.byte -> result M;
  pkl_roundtrip :
    forall m b, pkl_dump m = (b, Ok tt) -> pkl_load b = Ok m
}.

(** A [ZipFile]: the mode it was opened in, and its members in the order
    they were written.  A name written twice is stored twice; reading
    takes the latest. *)
Inductive zip_mode : Type := mode_r | mode_w | mode_x | mode_a.

Record ZipFile : Type := {
  mode : zip_mode;
  filelist : list (string * list Byte.byte)
}.

Module zipfile.

Fixpoint lookup (l : list (string * list Byte.byte)) (name : string)
  : option (list Byte.byte) :=
  match l with
  | [] => None
  | (n, b) :: l' =>
      match lookup l' name with
      | Some b' => Some b'
      | None => if String.eqb n name then Some b else None
      end
  end.

Definition getinfo (z : ZipFile) (name : string) : option (list Byte.byte) :=
  lookup (filelist z) name.

(** [with z.open(name, "r") as file: ...]: the member's bytes. *)
Definition read (z : ZipFile) (name : string) : result (list Byte.byte) :=
  match getinfo z name with
  | Some b => Ok b
  | None => Raise KeyError
  end.

(** [z.open(name, "w")] is refused by an archive opened for reading. *)
Definition writable (z : ZipFile) : bool :=
  match mode z with
  | mode_r => false
  | _ => true
  end.

(** [with z.open(name, "w") as file: ...]: a new member with the bytes
    written before the block was left. *)
Definition write (z : ZipFile) (name : string) (b : list Byte.byte)
  : ZipFile := {| mode := mode z; filelist := filelist z ++ [(name, b)] |}.

End zipfile.

(* ================================================================== *)
(** * class GaussianProcessOracle *)
(* ================================================================== *)

Module GaussianProcessOracle.
Section Oracle.

Context {sk : Sklearn}.

(** The attributes the methods below read; the rest is kept by the
    base class. *)
Record t : Type := { dataset : DatasetBuilder; model : Model }.

(** What [__init__] hands to the base class besides the dataset and the
    caller's keyword arguments. *)
Record base_arguments : Type := {
  noise_std : float;
  is_batched : bool;
  internal_batch_size : nat;
  internal_measurements : nat;
  expect_normalized_y : bool;
  expect_normalized_x : bool;
  expect_logits : option bool
}.

Definition __init__ (dataset : DatasetBuilder) (noise_std : float)
  : base_arguments := {|
  noise_std := noise_std;
  is_batched := true;
  internal_batch_size := 32;
  internal_measurements := 1;
  expect_normalized_y := true;
  expect_normalized_x := negb (is_discrete dataset);
  expect_logits := if is_discrete dataset then Some false else None
|}.

Definition check_input_format (self : t) (dataset : DatasetBuilder) : bool :=
  true.

Definition member : string := "gaussian_process.pkl".

Definition save_model_to_zip `{Pickle Model} (model : Model)
           (zip_archive : ZipFile) : ZipFile * result unit :=
  if zipfile.writable zip_archive then
    let (written, r) := pkl_dump model in
    (zipfile.write zip_archive member written, r)
  else (zip_archive, Raise ValueError).

Definition load_model_from_zip `{Pickle Model} (zip_archive : ZipFile)
  : result Model :=
  (file <- zipfile.read zip_archive member ;;
   pkl_load file)%result.

(** [0.9 * np.eye(n) + 0.1 * np.ones((n, n))] *)
Definition default_kernel_matrix (n : nat) : np.ndarray float :=
  np.plus (np.scale 0.9%float (np.eye n))
          (np.scale 0.1%float (np.ones [n; n])).

(** Lines 214-224 of [fit]: the choice of the kernel. *)
Definition select_kernel (dataset : DatasetBuilder)
           (kernel : option (kernel_arg Kernel)) : gp_kernel Kernel :=
  if is_discrete dataset then
    DiscreteSequence
      match kernel with
      | None =>
          let n := num_classes dataset in
          kernel_array (FloatArray (default_kernel_matrix n))
      | Some k => k
      end
  else
    match kernel with
    | None => RBF 1.0%float (1e-5%float, 1e5%float)
    | Some k => Supplied k
    end.

(** Lines 237-240: the sub-sample. *)
Definition subsample (x y : array) (max_samples : Z)
  : py (list Z * array * array) :=
  (n <- PyM.lift (Array.shape0 y) ;;
   indices <- np_random.choice n (Z.min (Z.of_nat n) max_samples) ;;
   x <- PyM.lift (Array.take0 x indices) ;;
   y <- PyM.lift (Array.take0 y indices) ;;
   PyM.ret (indices, x, y))%py.

(** Lines 244-251: conversion and normalization. *)
Definition preprocess (dataset : DatasetBuilder) (x y : array)
  : py (array * array) :=
  (x <- (if is_discrete dataset && Array.is_floating x
         then PyM.log (call_to_integers x) ;;
              PyM.lift (to_integers dataset x)
         else PyM.ret x) ;;
   x <- (if Array.is_floating x
         then PyM.log (call_normalize_x x) ;;
              PyM.lift (normalize_x dataset x)
         else PyM.ret x) ;;
   PyM.log (call_normalize_y y) ;;
   y <- PyM.lift (normalize_y dataset y) ;;
   PyM.ret (x, y))%py.

(** Lines 254-255: [model.fit(x.reshape(...), y.reshape(...))].
    [np.prod(())] is the float 1.0, which [reshape] refuses. *)
Definition fit_model (model : Model) (x y : array) : py Model :=
  (n <- PyM.lift (Array.shape0 x) ;;
   x <- PyM.lift (match tl (Array.shape x) with
                  | [] => Raise TypeError
                  | rest => Array.reshape x [n; np.prod rest]
                  end) ;;
   m <- PyM.lift (Array.shape0 y) ;;
   y <- PyM.lift (Array.reshape y [m]) ;;
   PyM.log (call_model_fit x y) ;;
   PyM.lift (model_fit model x y))%py.

Definition fit (dataset : DatasetBuilder)
           (kernel : option (kernel_arg Kernel)) (max_samples : Z)
           (kwargs : Kwargs) : py Model :=
  (let kernel := select_kernel dataset kernel in
   model <- PyM.lift (GaussianProcessRegressor kernel kwargs) ;;
   PyM.set_disable_transform true ;;
   x <- (fun w => (w, x dataset (_disable_transform w))) ;;
   y <- (fun w => (w, y dataset (_disable_transform w))) ;;
   s <- subsample x y max_samples ;;
   let '(_, x, y) := s in
   p <- preprocess dataset x y ;;
   let '(x, y) := p in
   model <- fit_model model x y ;;
   PyM.set_disable_transform false ;;
   PyM.ret model)%py.

(** [self.model.predict(x)[:, np.newaxis]] *)
Definition protected_score (self : t) (x : array) : result array :=
  (y <- model_predict (model self) x ;;
   Array.newaxis1 y)%result.

End Oracle.
End GaussianProcessOracle.

(* ================================================================== *)
(** * A small concrete setting, for running the model *)
(* ================================================================== *)

Module Demo.

(** A regressor that remembers its training set and predicts 1.0 for
    every design; it refuses an empty training set. *)
#[global] Instance sklearn : Sklearn := {|
  Kernel := unit;
  Kwargs := unit;
  Model := option (array * array);
  GaussianProcessRegressor := fun _ _ => Ok None;
  model_fit := fun _ x y =>
    match Array.shape0 x with
    | Ok (S _) => Ok (Some (x, y))
    | _ => Raise (LibraryError "sklearn")
    end;
  model_predict := fun _ x =>
    (n <- Array.shape0 x ;;
     Ok (FloatArray (np.ones [n])))%result
|}.

(** The position of the largest of a non-empty list of logits. *)
Fixpoint argmax_from (best : float) (at_ next : nat) (l : list float) : nat :=
  match l with
  | [] => at_
  | v :: l' =>
      if PrimFloat.ltb best v
      then argmax_from v next (S next) l'
      else argmax_from best at_ (S next) l'
  end.

Definition argmax (l : list float) : Z :=
  match l with
  | [] => 0%Z
  | v :: l' => Z.of_nat (argmax_from v 0 1 l')
  end.

(** [to_integers]: arg-max over the last axis of an array of logits. *)
Definition logits_to_integers (k : nat) (x : array) : result array :=
  match x with
  | IntArray _ => Raise ValueError
  | FloatArray a =>
      let sh := removelast (np.shape a) in
      Ok (IntArray
            {| np.shape := sh;
               np.data := map (fun i => argmax (np.chunk k i (np.data a)))
                              (seq 0 (np.prod sh)) |})
  end.

(** Three designs of two tokens over a two-letter alphabet, stored as
    integers, with their scores. *)
Definition tokens : DatasetBuilder := {|
  is_discrete := true;
  num_classes := 2;
  x := fun _ => Ok (IntArray {| np.shape := [3; 2];
                                np.data := [0; 1; 1; 0; 1; 1]%Z |});
  y := fun _ => Ok (FloatArray {| np.shape := [3; 1];
                                  np.data := [1; 2; 3]%float |});
  to_integers := logits_to_integers 2;
  normalize_x := fun x => Ok x;
  normalize_y := fun y => Ok y
|}.

(** The same designs stored as logits. *)
Definition logits : DatasetBuilder := {|
  is_discrete := true;
  num_classes := 2;
  x := fun _ => Ok (FloatArray
                      {| np.shape := [3; 2; 2];
                         np.data := [5; 0; 0; 5;  0; 5; 5; 0;
                                     0; 5; 0; 5]%float |});
  y := fun _ => Ok (FloatArray {| np.shape := [3; 1];
                                  np.data := [1; 2; 3]%float |});
  to_integers := logits_to_integers 2;
  normalize_x := fun x => Ok x;
  normalize_y := fun y => Ok y
|}.

(** Continuous designs. *)
Definition continuous : DatasetBuilder := {|
  is_discrete := false;
  num_classes := 0;
  x := fun _ => Ok (FloatArray {| np.shape := [3; 2];
                                  np.data := [1; 2; 3; 4; 5; 6]%float |});
  y := fun _ => Ok (FloatArray {| np.shape := [3; 1];
                                  np.data := [1; 2; 3]%float |});
  to_integers := fun _ => Raise (LibraryError "dataset");
  normalize_x := fun x => Ok x;
  normalize_y := fun y => Ok y
|}.

Definition fresh (flag : bool) : world :=
  {| _disable_transform := flag; rng := [4; 1; 3]; calls := [] |}.

(** An asymmetric similarity matrix over a two-letter alphabet. *)
Definition asymmetric : DiscreteSequenceKernel.t float :=
  DiscreteSequenceKernel.__init__
    {| np.shape := [2; 2]; np.data := [0; 1; 0; 0]%float |}.

(** A symmetric integer similarity matrix over a two-letter alphabet. *)
Definition symmetric_int : DiscreteSequenceKernel.t Z :=
  DiscreteSequenceKernel.__init__
    {| np.shape := [2; 2]; np.data := [3; 1; 1; 2]%Z |}.

(** A regressor that only keeps the number of examples it was fitted
    on, and predicts 1.0 for every design. *)
Definition counting : Sklearn := {|
  Kernel := unit;
  Kwargs := unit;
  Model := nat;
  GaussianProcessRegressor := fun _ _ => Ok 0;
  model_fit := fun _ x _ => Array.shape0 x;
  model_predict := fun _ x =>
    (n <- Array.shape0 x ;;
     Ok (FloatArray (np.ones [n])))%result
|}.

(** Its pickle: the number in unary. *)
Definition unary_pickle : Pickle (@Model counting).
Proof.
  refine {| pkl_dump := fun n : @Model counting => (repeat Byte.x01 n, Ok tt);
            pkl_load := fun b => Ok (length b : @Model counting) |}.
  intros m b E. inversion E. now rewrite repeat_length.
Defined.

(** An archive that already holds two members. *)
Definition archive : ZipFile := {|
  mode := mode_a;
  filelist := [("README"%string, [Byte.x52]);
               ("gaussian_process.pkl"%string, [Byte.x01])]
|}.

(** A pickle that cannot take more than two examples: it raises after
    two bytes have reached the file. *)
Definition short_pickle : Pickle (@Model counting).
Proof.
  refine {| pkl_dump := fun n : @Model counting =>
              if Nat.leb n 2 then (repeat Byte.x01 n, Ok tt)
              else (repeat Byte.x01 2, Raise (LibraryError "pickle"));
            pkl_load := fun b => Ok (length b : @Model counting) |}.
  intros m b E. destruct (Nat.leb m 2); inversion E.
  now rewrite repeat_length.
Defined.

(** An archive opened for reading, without a model in it. *)
Definition readonly : ZipFile := {|
  mode := mode_r;
  filelist := [("README"%string, [Byte.x52])]
|}.

End Demo.

(* ================================================================== *)
(** * Vocabulary of the statements *)
(* ================================================================== *)

(** A square, well-formed matrix [m] with [m[a][b] == m[b][a]]. *)
Definition symmetric {A : Type} (m : np.ndarray A) : Prop :=
  exists n, np.shape m = [n; n] /\ np.well_formed m /\
            forall a b : Z, np.get2 m a b = np.get2 m b a.

(** A dataset method that keeps the batch axis: when its result has rows,
    its argument has as many.  ([to_integers] drops the class axis,
    [normalize_x] and [normalize_y] are element-wise.) *)
Definition keeps_batch (f : array -> result array) : Prop :=
  forall a b n, f a = Ok b -> Array.shape0 b = Ok n -> Array.shape0 a = Ok n.



(** The call that converts, if any, and the tensor that follows. *)
Definition conversion (dataset : DatasetBuilder) (x : array)
  : list call * result array :=
  if is_discrete dataset && Array.is_floating x
  then ([call_to_integers x], to_integers dataset x)
  else ([], Ok x).

(** The call that normalizes the designs, if any, and the tensor that
    follows. *)
Definition normalization (dataset : DatasetBuilder) (x1 : array)
  : list call * result array :=
  if Array.is_floating x1
  then ([call_normalize_x x1], normalize_x dataset x1)
  else ([], Ok x1).

(** What the conversion and normalization block did, given the calls
    [l] it made and its outcome [r]: each step that raises ends it. *)
Definition preprocessed (dataset : DatasetBuilder) (x y : array)
           (l : list call) (r : result (array * array)) : Prop :=
  match snd (conversion dataset x) with
  | Raise e => l = fst (conversion dataset x) /\ r = Raise e
  | Ok x1 =>
      match snd (normalization dataset x1) with
      | Raise e =>
          l = fst (conversion dataset x) ++ fst (normalization dataset x1) /\
          r = Raise e
      | Ok x2 =>
          l = fst (conversion dataset x) ++ fst (normalization dataset x1)
              ++ [call_normalize_y y] /\
          r = (y' <- normalize_y dataset y ;; Ok (x2, y'))%result
      end
  end.

(** The calls of the sub-sampling block: none, or one request for
    [min(N, max_samples)] of the [N] indices of [yy]. *)
Definition drawn (yy : array) (max_samples : Z) (l : list call) : Prop :=
  l = [] \/
  exists N, Array.shape0 yy = Ok N /\
            l = [call_choice N (Z.min (Z.of_nat N) max_samples)].

(** A sub-sample of the examples of [yy]: [min(N, max_samples)] pairwise
    distinct indices below [N], and as many designs and scores. *)
Definition sampled (yy : array) (max_samples : Z)
           (idx : list Z) (xs ys : array) : Prop :=
  exists N,
    Array.shape0 yy = Ok N /\
    Z.of_nat (length idx) = Z.min (Z.of_nat N) max_samples /\
    NoDup idx /\
    Forall (fun i => 0 <= i < Z.of_nat N)%Z idx /\
    Array.shape0 xs = Ok (length idx) /\
    Array.shape0 ys = Ok (length idx).

(** The calls of the fitting block on [x] and [y]: none, or one call of
    [model.fit] on arrays with the rows and the dtype of [x] and the
    rows of [y]. *)
Definition fitted_on (x y : array) (l : list call) : Prop :=
  l = [] \/
  exists x' y' n m,
    l = [call_model_fit x' y'] /\
    Array.shape0 x = Ok n /\ Array.shape0 x' = Ok n /\
    Array.shape0 y = Ok m /\ Array.shape0 y' = Ok m /\
    Array.is_floating x' = Array.is_floating x.

(** A call that respects the sample size: [np.random.choice] asked for
    [size] of [N] indices, [model.fit] given [size] designs and scores. *)
Definition sample_call (N : nat) (size : Z) (c : call) : Prop :=
  match c with
  | call_choice a s => a = N /\ s = size
  | call_model_fit x' y' =>
      exists n, Z.of_nat n = size /\
                Array.shape0 x' = Ok n /\ Array.shape0 y' = Ok n
  | _ => True
  end.



(** The calls made between two worlds. *)
Definition calls_since (w w' : world) (l : list call) : Prop :=
  calls w' = calls w ++ l.

(** Tokens that index an axis of length [n]: from [-n] to [n - 1]. *)
Definition in_range (n : nat) (x : list Z) : Prop :=
  Forall (fun a => - Z.of_nat n <= a < Z.of_nat n)%Z x.


(** Two arrays over one buffer: the same dtype and the same elements in
    the same order, whatever their shapes. *)
Definition same_buffer (a b : array) : Prop :=
  match a, b with
  | FloatArray a', FloatArray b' => np.data a' = np.data b'
  | IntArray a', IntArray b' => np.data a' = np.data b'
  | _, _ => False
  end.

(* ================================================================== *)
(** * The model at work *)
(* ================================================================== *)

(** [kernel_matrix[[0, 1]][:, [1, -1]].sum()] over [[0, 1], [0, 0]]. *)
Example evaluate_kernel_run :
  DiscreteSequenceKernel.evaluate_kernel Demo.asymmetric [0; 1]%Z [1; -1]%Z
  = Ok 2%float.
Proof. reflexivity. Qed.

(** A token outside the alphabet. *)
Example evaluate_kernel_out_of_range :
  DiscreteSequenceKernel.evaluate_kernel Demo.asymmetric [0; 2]%Z [1]%Z
  = Raise IndexError.
Proof. reflexivity. Qed.

Example call_run :
  DiscreteSequenceKernel.__call__ Demo.symmetric_int [[0; 1]; [1]]%Z None false
  = Ok {| np.shape := [2; 2]; np.data := [7; 3; 3; 2]%Z |}.
Proof. reflexivity. Qed.

Example call_two_batches_run :
  DiscreteSequenceKernel.__call__ Demo.symmetric_int
    [[0; 1]; [1]]%Z (Some [[0]; [0; 0]; [1]]%Z) false
  = Ok {| np.shape := [2; 3]; np.data := [4; 8; 3; 1; 2; 2]%Z |}.
Proof. reflexivity. Qed.

Example default_kernel_matrix_run :
  GaussianProcessOracle.default_kernel_matrix 2
  = {| np.shape := [2; 2]; np.data := [1; 0.1; 0.1; 1]%float |}.
Proof. reflexivity. Qed.

Example permutation_run :
  np_random.permutation 5 [3; 3; 3; 0; 7] = ([3; 4; 0; 1; 2], []).
Proof. reflexivity. Qed.

(** A fit of two of three examples: the draw, the normalization of the
    scores, the call to the regressor; the flag ends False. *)
Example fit_run :
  GaussianProcessOracle.fit Demo.tokens None 2 tt (Demo.fresh false)
  = let xs := IntArray {| np.shape := [2; 2]; np.data := [1; 0; 1; 1]%Z |} in
    ({| _disable_transform := false;
        rng := [];
        calls :=
          [call_choice 3 2;
           call_normalize_y
             (FloatArray {| np.shape := [2; 1]; np.data := [2; 3]%float |});
           call_model_fit
             xs (FloatArray {| np.shape := [2]; np.data := [2; 3]%float |})] |},
     Ok (Some (xs, FloatArray {| np.shape := [2]; np.data := [2; 3]%float |}))).
Proof. reflexivity. Qed.

(** No examples to fit on: the regressor refuses, the flag stays True. *)
Example fit_on_nothing_run :
  exists l,
    GaussianProcessOracle.fit Demo.tokens None 0 tt (Demo.fresh false)
    = ({| _disable_transform := true; rng := []; calls := l |},
       Raise (LibraryError "sklearn")).
Proof. eexists. vm_compute. reflexivity. Qed.

Example constructor_arguments_run :
  GaussianProcessOracle.expect_normalized_x
    (GaussianProcessOracle.__init__ Demo.tokens 0%float) = false /\
  GaussianProcessOracle.expect_logits
    (GaussianProcessOracle.__init__ Demo.continuous 0%float) = None.
Proof. split; reflexivity. Qed.

(* ================================================================== *)
(** * Facts about lists, comprehensions and buffers *)
(* ================================================================== *)

Section Comprehensions.

Variables A B : Type.
Variable f : A -> result B.

Lemma mapM_length : forall l bs, mapM f l = Ok bs -> length bs = length l.
Proof.
  induction l as [|a l IH]; simpl; intros bs E.
  - inversion E; reflexivity.
  - destruct (f a); simpl in E; try discriminate.
    destruct (mapM f l); simpl in E; inversion E; subst.
    simpl. f_equal. now apply IH.
Qed.

Lemma mapM_nth_error : forall l bs i a,
    mapM f l = Ok bs -> nth_error l i = Some a ->
    exists b, f a = Ok b /\ nth_error bs i = Some b.
Proof.
  induction l as [|a0 l IH]; intros bs i a E Hi.
  - destruct i; discriminate.
  - simpl in E. destruct (f a0) as [b0|] eqn:E0; simpl in E; try discriminate.
    destruct (mapM f l) as [bs'|] eqn:E1; simpl in E; inversion E; subst.
    destruct i as [|i]; simpl in Hi.
    + inversion Hi; subst. exists b0. now split.
    + destruct (IH bs' i a eq_refl Hi) as [b [Hb Hn]]. now exists b.
Qed.

Lemma mapM_total : forall l,
    Forall (fun a => exists b, f a = Ok b) l -> exists bs, mapM f l = Ok bs.
Proof.
  induction 1 as [|a l [b Hb] _ [bs Hbs]]; simpl.
  - now exists [].
  - rewrite Hb, Hbs. simpl. now exists (b :: bs).
Qed.

Lemma mapM_Forall : forall (P : B -> Prop) l bs,
    (forall a b, f a = Ok b -> P b) -> mapM f l = Ok bs -> Forall P bs.
Proof.
  intros P l. induction l as [|a l IH]; simpl; intros bs HP E.
  - inversion E. constructor.
  - destruct (f a) as [b|] eqn:E0; simpl in E; try discriminate.
    destruct (mapM f l) as [bs'|]; simpl in E; inversion E; subst.
    constructor; eauto.
Qed.

End Comprehensions.

Section Buffers.

Variable A : Type.

(** A buffer made of blocks of one length [c]: element [j] of block
    [i] sits at offset [i * c + j]. *)
Lemma nth_error_flat_map_rows :
  forall (I : Type) (g : I -> list A) (c : nat) (l : list I) (i j : nat) (d : I),
    Forall (fun a => length (g a) = c) l ->
    i < length l -> j < c ->
    nth_error (flat_map g l) (i * c + j) = nth_error (g (nth i l d)) j.
Proof.
  intros I g c l. induction l as [|a l IH]; intros i j d Hall Hi Hj.
  - simpl in Hi. lia.
  - inversion Hall as [|? ? Ha Hl]; subst. simpl flat_map.
    destruct i as [|i].
    + simpl. rewrite nth_error_app1 by lia. reflexivity.
    + rewrite nth_error_app2 by (simpl; lia).
      replace (S i * length (g a) + j - length (g a))
        with (i * length (g a) + j) by (simpl; lia).
      simpl in Hi. simpl nth. apply IH; auto. lia.
Qed.

Lemma nth_error_combine : forall (B : Type) (l1 : list A) (l2 : list B) k,
    nth_error (combine l1 l2) k =
    match nth_error l1 k, nth_error l2 k with
    | Some a, Some b => Some (a, b)
    | _, _ => None
    end.
Proof.
  induction l1 as [|a l1 IH]; intros l2 k.
  - destruct k; reflexivity.
  - destruct l2 as [|b l2]; destruct k as [|k]; simpl; try reflexivity.
    + destruct (nth_error l1 k); reflexivity.
    + apply IH.
Qed.

Lemma nth_error_repeat_lt : forall (a : A) n k,
    k < n -> nth_error (repeat a n) k = Some a.
Proof.
  induction n as [|n IH]; intros k Hk; [lia|].
  destruct k; simpl; [reflexivity|]. apply IH. lia.
Qed.

End Buffers.

Lemma normalize_index_of_nat : forall n i,
    i < n -> np.normalize_index n (Z.of_nat i) = Ok i.
Proof.
  intros n i Hi. unfold np.normalize_index.
  replace ((0 <=? Z.of_nat i)%Z) with true by (symmetry; apply Z.leb_le; lia).
  replace ((Z.of_nat i <? Z.of_nat n)%Z) with true
    by (symmetry; apply Z.ltb_lt; lia).
  simpl. now rewrite Nat2Z.id.
Qed.

Lemma normalize_index_lt : forall n i k,
    np.normalize_index n i = Ok k -> k < n.
Proof.
  intros n i k. unfold np.normalize_index.
  destruct ((0 <=? i)%Z && (i <? Z.of_nat n)%Z) eqn:E1.
  - intro E; inversion E; subst.
    apply andb_true_iff in E1. destruct E1 as [H1 H2].
    apply Z.leb_le in H1. apply Z.ltb_lt in H2. lia.
  - destruct ((- Z.of_nat n <=? i)%Z && (i <? 0)%Z) eqn:E2; [|discriminate].
    intro E; inversion E; subst.
    apply andb_true_iff in E2. destruct E2 as [H1 H2].
    apply Z.leb_le in H1. apply Z.ltb_lt in H2. lia.
Qed.

(* ================================================================== *)
(** * DiscreteSequenceKernel: the diagonal *)
(* ================================================================== *)

Section Diagonal.

Import DiscreteSequenceKernel.
Context {A : Type} `{Scalar A}.

(** C5.  For every kernel matrix and every batch [X]: [diag(X)] is built
    whenever every self-similarity [evaluate_kernel(x, x)] is, and then
    its entry at the position of a sequence [x] of [X] is
    [evaluate_kernel(x, x)]. *)
Theorem diag_is_self_similarity :
  forall (self : t A) (X : list (list Z)),
    (Forall (fun x => exists v, evaluate_kernel self x x = Ok v) X ->
     exists D, diag self X = Ok D) /\
    (forall D i x,
        diag self X = Ok D -> nth_error X i = Some x ->
        exists v, evaluate_kernel self x x = Ok v /\
                  np.get1 D (Z.of_nat i) = Ok v).
Proof.
  intros self X. split.
  - intro Hall. unfold diag.
    destruct (mapM_total (fun x => evaluate_kernel self x x) Hall) as [vs Hvs].
    rewrite Hvs. simpl. eauto.
  - intros D i x HD Hx. unfold diag in HD.
    destruct (mapM (fun x0 => evaluate_kernel self x0 x0) X) as [vs|] eqn:E;
      simpl in HD; inversion HD; subst; clear HD.
    destruct (mapM_nth_error _ _ _ E Hx) as [v [Hv Hn]].
    exists v. split; [exact Hv|].
    unfold np.get1, np.array1. simpl.
    assert (Hi : i < length vs).
    { apply nth_error_Some. rewrite Hn. discriminate. }
    rewrite (normalize_index_of_nat Hi). simpl. now rewrite Hn.
Qed.

End Diagonal.

(** The diagonal of a concrete batch under a concrete matrix. *)
Lemma diag_is_self_similarity_witness :
  exists D,
    DiscreteSequenceKernel.diag Demo.asymmetric [[0; 1]; [1; -1]]%Z = Ok D /\
    exists v,
      DiscreteSequenceKernel.evaluate_kernel Demo.asymmetric [1; -1]%Z [1; -1]%Z
      = Ok v /\ np.get1 D 1 = Ok v.
Proof.
  destruct (diag_is_self_similarity Demo.asymmetric [[0; 1]; [1; -1]]%Z)
    as [Htotal Hentry].
  destruct Htotal as [D HD].
  - repeat constructor; eexists; vm_compute; reflexivity.
  - exists D. split; [exact HD|].
    exact (Hentry D 1 [1; -1]%Z HD eq_refl).
Defined.

(* ================================================================== *)
(** * GaussianProcessOracle: check_input_format and the default kernel *)
(* ================================================================== *)

Section Format.

Import GaussianProcessOracle.
Context {sk : Sklearn}.

(** C9.  [check_input_format] answers True for every dataset (and every
    oracle): no shape or type is refused. *)
Theorem check_input_format_accepts_all :
  forall (self : t) (dataset : DatasetBuilder),
    check_input_format self dataset = true.
Proof. intros self dataset. reflexivity. Qed.

Lemma default_kernel_matrix_shape :
  forall n, np.shape (default_kernel_matrix n) = [n; n].
Proof. reflexivity. Qed.

Lemma eye_nth_error : forall n i j,
    i < n -> j < n ->
    nth_error (np.data (np.eye (A := float) n)) (i * n + j)
    = Some (if Nat.eqb i j then 1%float else 0%float).
Proof.
  intros n i j Hi Hj. unfold np.eye. simpl np.data.
  rewrite (@nth_error_flat_map_rows _ _ _ n (seq 0 n) i j 0).
  - rewrite seq_nth by exact Hi. simpl.
    rewrite nth_error_map, nth_error_nth' with (d := 0)
      by (rewrite length_seq; exact Hj).
    rewrite seq_nth by exact Hj. reflexivity.
  - apply Forall_forall. intros a _. now rewrite length_map, length_seq.
  - now rewrite length_seq.
  - exact Hj.
Qed.

Lemma default_kernel_matrix_entry : forall n i j,
    i < n -> j < n ->
    np.get2 (default_kernel_matrix n) (Z.of_nat i) (Z.of_nat j)
    = Ok (if Nat.eqb i j then 1%float else 0.1%float).
Proof.
  intros n i j Hi Hj. unfold np.get2.
  rewrite default_kernel_matrix_shape.
  rewrite (normalize_index_of_nat Hi), (normalize_index_of_nat Hj).
  simpl Py.bind.
  unfold default_kernel_matrix.
  cbn [np.data np.plus np.scale np.ones].
  rewrite nth_error_map, nth_error_combine, !nth_error_map.
  pose proof (eye_nth_error Hi Hj) as He. simpl in He. rewrite He.
  rewrite nth_error_repeat_lt by nia.
  simpl. destruct (Nat.eqb i j); reflexivity.
Qed.

End Format.

(* ================================================================== *)
(** * Sums over gathered blocks *)
(* ================================================================== *)

Section Gather.

Variable A : Type.

Lemma flat_map_ext_in : forall (I : Type) (g h : I -> list A) (l : list I),
    (forall a, In a l -> g a = h a) -> flat_map g l = flat_map h l.
Proof.
  intros I g h l. induction l as [|a l IH]; intro E; simpl; [reflexivity|].
  rewrite (E a) by (now left). f_equal. apply IH. intros; apply E; now right.
Qed.

Lemma chunk_length : forall (d : list A) c r a,
    length d = r * c -> a < r -> length (np.chunk c a d) = c.
Proof.
  intros d c r a Hd Ha. unfold np.chunk.
  rewrite length_firstn, length_skipn, Hd. nia.
Qed.

Lemma chunk_flat_map :
  forall (I : Type) (g : I -> list A) (c : nat) (l : list I) (i : nat) (d : I),
    Forall (fun a => length (g a) = c) l -> i < length l ->
    np.chunk c i (flat_map g l) = g (nth i l d).
Proof.
  intros I g c l. induction l as [|a l IH]; intros i d Hall Hi.
  - simpl in Hi. lia.
  - inversion Hall as [|? ? Ha Hl]; subst. simpl flat_map.
    destruct i as [|i]; unfold np.chunk.
    + simpl skipn. rewrite firstn_app, Nat.sub_diag, firstn_all. simpl.
      apply app_nil_r.
    + rewrite skipn_app.
      rewrite skipn_all2 by (simpl; lia).
      replace (S i * length (g a) - length (g a)) with (i * length (g a))
        by (simpl; lia).
      simpl app. simpl nth. simpl in Hi.
      apply (IH i d Hl). lia.
Qed.

Lemma map_nth_seq : forall (B : Type) (h : A -> B) (l : list A) (d : A),
    map (fun i => h (nth i l d)) (seq 0 (length l)) = map h l.
Proof.
  intros B h l d. induction l as [|a l IH]; [reflexivity|].
  simpl. f_equal. rewrite <- seq_shift, map_map. exact IH.
Qed.

(** One element, as a block of length one of a block of length [c]. *)
Lemma chunk_chunk : forall (d : list A) c a b,
    b < c ->
    np.chunk 1 b (np.chunk c a d) =
    match nth_error d (a * c + b) with
    | Some v => [v]
    | None => []
    end.
Proof.
  intros d c a b Hb. unfold np.chunk.
  rewrite Nat.mul_1_r.
  rewrite skipn_firstn_comm, firstn_firstn, skipn_skipn.
  replace (Nat.min 1 (c - b)) with 1 by lia.
  rewrite (Nat.add_comm b).
  generalize (a * c + b). intro k. revert d.
  induction k as [|k IH]; intros [|v d]; simpl; try reflexivity.
  exact (IH d).
Qed.

Lemma flat_map_app_perm : forall (I : Type) (g h : I -> list A) (l : list I),
    Permutation (flat_map (fun b => g b ++ h b) l)
                (flat_map g l ++ flat_map h l).
Proof.
  intros I g h l. induction l as [|b l IH]; simpl; [constructor|].
  rewrite <- !app_assoc. apply Permutation_app_head.
  rewrite IH. rewrite !app_assoc. apply Permutation_app_tail.
  apply Permutation_app_comm.
Qed.

(** Gathering over rows then columns, or over columns then rows, visits
    the same elements. *)
Lemma flat_map_swap :
  forall (I J : Type) (g : I -> J -> list A) (xs : list I) (ys : list J),
    Permutation (flat_map (fun a => flat_map (fun b => g a b) ys) xs)
                (flat_map (fun b => flat_map (fun a => g a b) xs) ys).
Proof.
  intros I J g xs ys. induction xs as [|a xs IH]; simpl.
  - induction ys as [|b ys IHy]; simpl; [constructor | exact IHy].
  - rewrite IH. symmetry.
    apply (flat_map_app_perm (fun b => g a b)
                             (fun b => flat_map (fun a0 => g a0 b) xs)).
Qed.

Context `{Scalar A}.

Lemma fold_left_add_perm :
  ExactAdd A ->
  forall l l' : list A,
    Permutation l l' ->
    forall z, fold_left add l z = fold_left add l' z.
Proof.
  intros HE l l' HP. induction HP as [|v l l' _ IH|u v l|l l' l'' _ IH1 _ IH2];
    intro z; simpl.
  - reflexivity.
  - apply IH.
  - f_equal. rewrite !add_assoc. f_equal. apply add_comm.
  - now rewrite IH1.
Qed.

End Gather.

#[global] Instance int64_exact : ExactAdd Z.
Proof.
  split; intros; simpl; unfold wrap64.
  - now rewrite (Z.add_comm a b).
  - f_equal.
    replace ((a + b + 2 ^ 63) mod 2 ^ 64 - 2 ^ 63 + c + 2 ^ 63)%Z
      with ((a + b + 2 ^ 63) mod 2 ^ 64 + c)%Z by lia.
    replace (a + ((b + c + 2 ^ 63) mod 2 ^ 64 - 2 ^ 63) + 2 ^ 63)%Z
      with (a + (b + c + 2 ^ 63) mod 2 ^ 64)%Z by lia.
    rewrite Zplus_mod_idemp_l, Zplus_mod_idemp_r. f_equal. lia.
Qed.

(* ================================================================== *)
(** * DiscreteSequenceKernel: the Gram matrix *)
(* ================================================================== *)

Section Gram.

Import DiscreteSequenceKernel.
Context {A : Type} `{Scalar A}.

(** The similarity of two sequences over a well-formed [r] by [c]
    matrix: the sum of the entries selected by the cross product of
    their tokens. *)
Lemma evaluate_kernel_2d :
  forall (self : t A) r c x y v,
    np.shape (kernel_matrix self) = [r; c] ->
    np.well_formed (kernel_matrix self) ->
    evaluate_kernel self x y = Ok v ->
    exists xs ys,
      mapM (np.normalize_index r) x = Ok xs /\
      mapM (np.normalize_index c) y = Ok ys /\
      v = fold_left add
            (flat_map
               (fun a =>
                  flat_map
                    (fun b => np.chunk 1 b
                                (np.chunk c a (np.data (kernel_matrix self))))
                    ys) xs)
            zero.
Proof.
  intros [M] r c x y v Hs Hwf E. simpl in *.
  unfold evaluate_kernel, np.take0 in E. simpl in E. rewrite Hs in E.
  destruct (mapM (np.normalize_index r) x) as [xs|] eqn:Ex; simpl in E;
    [|discriminate].
  unfold np.take1 in E. simpl in E.
  destruct (mapM (np.normalize_index c) y) as [ys|] eqn:Ey; simpl in E;
    [|discriminate].
  inversion E; subst v; clear E.
  exists xs, ys. repeat split.
  unfold np.sum. simpl np.data. f_equal.
  rewrite !Nat.mul_1_r.
  assert (Hrows : Forall (fun a => length (np.chunk c a (np.data M)) = c) xs).
  { apply Forall_forall. intros a Ha.
    apply chunk_length with (r := r).
    - unfold np.well_formed in Hwf. rewrite Hs in Hwf. simpl in Hwf. lia.
    - assert (Hall : Forall (fun k => k < r) xs)
        by (eapply mapM_Forall; [|exact Ex]; intros; eapply normalize_index_lt; eauto).
      rewrite Forall_forall in Hall. auto. }
  rewrite <- (mapM_length _ _ Ex).
  set (F := fun blk : list A => flat_map (fun j => np.chunk 1 j blk) ys).
  set (g := fun a => np.chunk c a (np.data M)).
  transitivity (flat_map (fun i => F (g (nth i xs 0))) (seq 0 (length xs))).
  - apply flat_map_ext_in. intros i Hi. apply in_seq in Hi.
    rewrite (@chunk_flat_map _ _ g c xs i 0 Hrows) by lia. reflexivity.
  - rewrite !flat_map_concat_map. f_equal.
    apply (@map_nth_seq _ _ (fun a => F (g a)) xs 0).
Qed.

(** Over a symmetric matrix the similarity does not depend on the order
    of its two arguments, when sums are exact. *)
Lemma evaluate_kernel_comm :
  ExactAdd A ->
  forall (self : t A) x y v v',
    symmetric (kernel_matrix self) ->
    evaluate_kernel self x y = Ok v ->
    evaluate_kernel self y x = Ok v' ->
    v = v'.
Proof.
  intros HE self x y v v' [n [Hs [Hwf Hsym]]] E E'.
  destruct (evaluate_kernel_2d self x y Hs Hwf E) as [xs [ys [Ex [Ey ->]]]].
  destruct (evaluate_kernel_2d self y x Hs Hwf E') as [ys' [xs' [Ey' [Ex' ->]]]].
  rewrite Ex in Ex'. rewrite Ey in Ey'. inversion Ex'; inversion Ey'; subst.
  assert (Hxs : Forall (fun k => k < n) xs')
    by (eapply mapM_Forall; [|exact Ex]; intros; eapply normalize_index_lt; eauto).
  assert (Hys : Forall (fun k => k < n) ys')
    by (eapply mapM_Forall; [|exact Ey]; intros; eapply normalize_index_lt; eauto).
  rewrite Forall_forall in Hxs, Hys.
  set (D := np.data (kernel_matrix self)).
  rewrite (fold_left_add_perm HE
             (flat_map_swap (fun a b => np.chunk 1 b (np.chunk n a D)) xs' ys')).
  f_equal. apply flat_map_ext_in. intros b Hb.
  apply flat_map_ext_in. intros a Ha.
  rewrite !chunk_chunk by auto.
  pose proof (Hsym (Z.of_nat a) (Z.of_nat b)) as Hab.
  unfold np.get2 in Hab. rewrite Hs in Hab.
  rewrite !normalize_index_of_nat in Hab by auto. simpl in Hab.
  fold D in Hab.
  destruct (nth_error D (a * n + b)), (nth_error D (b * n + a));
    congruence.
Qed.

End Gram.

Lemma normalize_index_cases : forall n i,
    np.normalize_index n i = Raise IndexError \/
    exists k, k < n /\ np.normalize_index n i = Ok k.
Proof.
  intros n i. destruct (np.normalize_index n i) as [k|e] eqn:E.
  - right. exists k. split; [eapply normalize_index_lt; eauto | reflexivity].
  - left. unfold np.normalize_index in E.
    destruct ((0 <=? i)%Z && (i <? Z.of_nat n)%Z); [discriminate|].
    destruct ((- Z.of_nat n <=? i)%Z && (i <? 0)%Z); [discriminate|].
    now inversion E.
Qed.

Section GramMatrix.

Import DiscreteSequenceKernel.
Context {A : Type} `{Scalar A}.

(** The array [__call__] returns for a single batch: empty and 1-d for an
    empty batch, otherwise square, with the similarity of sequences [i]
    and [j] at offset [i * len(X) + j]. *)
Lemma call_entries :
  forall (self : t A) X K eval_gradient,
    __call__ self X None eval_gradient = Ok K ->
    np.shape K = [0] \/
    (np.shape K = [length X; length X] /\
     forall i j, i < length X -> j < length X ->
       exists v,
         evaluate_kernel self (nth i X []) (nth j X []) = Ok v /\
         nth_error (np.data K) (i * length X + j) = Some v).
Proof.
  intros self X K eg E. unfold __call__ in E.
  destruct (mapM (fun x => mapM (fun y => evaluate_kernel self x y) X) X)
    as [rows|] eqn:Erows; simpl in E; inversion E; subst K; clear E.
  pose proof (mapM_length _ _ Erows) as Hlen.
  assert (Hrow : Forall (fun row => length row = length X) rows).
  { eapply mapM_Forall; [|exact Erows].
    intros x row Hx. simpl in Hx. now apply mapM_length in Hx. }
  destruct rows as [|r0 rows']; [left; reflexivity|right].
  set (rows := r0 :: rows') in *.
  split.
  - unfold np.array2. subst rows. simpl np.shape.
    inversion Hrow; subst. simpl in Hlen. congruence.
  - intros i j Hi Hj.
    destruct (nth_error X i) as [xi|] eqn:Exi;
      [|apply nth_error_None in Exi; lia].
    destruct (nth_error X j) as [xj|] eqn:Exj;
      [|apply nth_error_None in Exj; lia].
    destruct (mapM_nth_error _ _ _ Erows Exi) as [row [Hrowi Hnrow]].
    simpl in Hrowi.
    destruct (mapM_nth_error _ _ _ Hrowi Exj) as [v [Hv Hnv]].
    exists v. split.
    + rewrite (nth_error_nth _ _ [] Exi), (nth_error_nth _ _ [] Exj).
      exact Hv.
    + change (np.data (np.array2 rows)) with (concat rows).
      rewrite <- (map_id rows), <- flat_map_concat_map.
      rewrite (@nth_error_flat_map_rows _ _ (fun r => r) (length X) rows i j [])
        by (auto; lia).
      rewrite (nth_error_nth _ _ [] Hnrow). exact Hnv.
Qed.

(** C4, as the code has it.  The Gram matrix of a single batch is
    symmetric when the kernel matrix is symmetric and the element type
    sums exactly (as the integer dtypes do): entry [i][j] equals entry
    [j][i] for all [i], [j], an index out of range failing alike on
    both sides. *)
Theorem gram_symmetric :
  ExactAdd A ->
  forall (self : t A) (X : list (list Z)) (K : np.ndarray A) eval_gradient,
    symmetric (kernel_matrix self) ->
    __call__ self X None eval_gradient = Ok K ->
    forall i j : Z, np.get2 K i j = np.get2 K j i.
Proof.
  intros HE self X K eg Hsym E i j.
  destruct (call_entries self X eg E) as [Hs|[Hs Hent]];
    unfold np.get2; rewrite Hs; [reflexivity|].
  destruct (normalize_index_cases (length X) i) as [Ei|[i' [Hi Ei]]];
    destruct (normalize_index_cases (length X) j) as [Ej|[j' [Hj Ej]]];
    rewrite Ei, Ej; simpl; try reflexivity.
  destruct (Hent i' j' Hi Hj) as [v [Hv Hn]].
  destruct (Hent j' i' Hj Hi) as [v' [Hv' Hn']].
  rewrite Hn, Hn'. f_equal.
  exact (evaluate_kernel_comm HE self _ _ Hsym Hv Hv').
Qed.

End GramMatrix.

Lemma symmetric_int_is_symmetric :
  symmetric (DiscreteSequenceKernel.kernel_matrix Demo.symmetric_int).
Proof.
  exists 2. repeat split. intros a b. unfold np.get2. simpl.
  destruct (normalize_index_cases 2 a) as [Ea|[a' [Ha Ea]]];
    destruct (normalize_index_cases 2 b) as [Eb|[b' [Hb Eb]]];
    rewrite Ea, Eb; simpl; try reflexivity.
  destruct a' as [|[|a']]; destruct b' as [|[|b']]; try lia; reflexivity.
Qed.

(** The Gram matrix of a batch of two sequences over a symmetric integer
    matrix. *)
Lemma gram_symmetric_witness :
  exists K,
    DiscreteSequenceKernel.__call__ Demo.symmetric_int [[0; 1]; [1]]%Z None false
    = Ok K /\
    np.get2 K 0 1 = np.get2 K 1 0 /\ np.get2 K 0 1 = Ok 3%Z.
Proof.
  eexists. split; [vm_compute; reflexivity|]. split.
  - apply (@gram_symmetric Z int64 int64_exact Demo.symmetric_int
             [[0; 1]; [1]]%Z _ false).
    + exact symmetric_int_is_symmetric.
    + vm_compute; reflexivity.
  - vm_compute; reflexivity.
Defined.

(** C4, as stated, fails: over the matrix [[0, 1], [0, 0]] the batch
    [[0], [1]] has Gram matrix [[0, 1], [0, 0]], whose entries [0][1]
    and [1][0] differ. *)
Lemma gram_of_asymmetric_matrix :
  exists K,
    DiscreteSequenceKernel.__call__ Demo.asymmetric [[0]; [1]]%Z None false
    = Ok K /\
    np.get2 K 0 1 = Ok 1%float /\ np.get2 K 1 0 = Ok 0%float /\
    np.get2 K 0 1 <> np.get2 K 1 0.
Proof.
  eexists. split; [vm_compute; reflexivity|].
  split; [vm_compute; reflexivity|]. split; [vm_compute; reflexivity|].
  vm_compute. intro E.
  apply (f_equal (fun r => match r with
                           | Ok v => PrimFloat.eqb v 1
                           | Raise _ => false
                           end)) in E.
  vm_compute in E. discriminate.
Qed.

(* ================================================================== *)
(** * The default kernel of a discrete dataset *)
(* ================================================================== *)

Section DefaultKernel.

Import GaussianProcessOracle.
Context {sk : Sklearn}.

(** C2, as the code has it.  For a discrete dataset of [n] classes and
    no kernel supplied, the kernel matrix [fit] builds is [n] by [n],
    every diagonal entry is exactly 1.0 (the float64 sum of 0.9 and 0.1)
    and every off-diagonal entry is exactly 0.1. *)
Theorem default_kernel_entries :
  forall (dataset : DatasetBuilder) (n : nat),
    is_discrete dataset = true ->
    num_classes dataset = n ->
    exists K,
      select_kernel dataset None = DiscreteSequence (kernel_array (FloatArray K)) /\
      np.shape K = [n; n] /\
      forall i j, i < n -> j < n ->
        np.get2 K (Z.of_nat i) (Z.of_nat j)
        = Ok (if Nat.eqb i j then 1%float else 0.1%float).
Proof.
  intros dataset n Hd Hn. exists (default_kernel_matrix n).
  unfold select_kernel. rewrite Hd, Hn.
  split; [reflexivity|]. split; [reflexivity|].
  intros i j Hi Hj. now apply default_kernel_matrix_entry.
Qed.

End DefaultKernel.

(** The default kernel of a two-letter alphabet, read at [1][1] and at
    [0][1]. *)
Lemma default_kernel_entries_witness :
  exists K,
    GaussianProcessOracle.select_kernel Demo.tokens None
    = DiscreteSequence (kernel_array (FloatArray K)) /\
    np.shape K = [2; 2] /\
    np.get2 K 1 1 = Ok 1%float /\ np.get2 K 0 1 = Ok 0.1%float.
Proof.
  destruct (@default_kernel_entries Demo.sklearn Demo.tokens 2 eq_refl eq_refl)
    as [K [HK [Hs He]]].
  exists K. split; [exact HK|]. split; [exact Hs|]. split.
  - exact (He 1 1 ltac:(lia) ltac:(lia)).
  - exact (He 0 1 ltac:(lia) ltac:(lia)).
Defined.

(** C2, as stated, fails: for a two-letter alphabet the entry [0][0] of
    the default kernel matrix is 1.0, not 0.9. *)
Lemma default_kernel_diagonal_is_one :
  exists K,
    GaussianProcessOracle.select_kernel Demo.tokens None
    = DiscreteSequence (kernel_array (FloatArray K)) /\
    np.get2 K 0 0 = Ok 1%float /\
    np.get2 K 0 0 <> Ok 0.9%float.
Proof.
  eexists. split; [reflexivity|]. split; [vm_compute; reflexivity|].
  vm_compute. intro E.
  apply (f_equal (fun r => match r with
                           | Ok v => PrimFloat.eqb v 1
                           | Raise _ => false
                           end)) in E.
  vm_compute in E. discriminate.
Qed.

(* ================================================================== *)
(** * np.random.choice without replacement *)
(* ================================================================== *)

Lemma shuffle_step : forall n p rest draws,
    np_random.shuffle (S n) (p :: rest) draws =
    let k := hd 0 draws mod length (p :: rest) in
    let (out, draws') :=
      np_random.shuffle n (firstn k (p :: rest) ++ skipn (S k) (p :: rest))
                        (tl draws) in
    (nth k (p :: rest) p :: out, draws').
Proof. reflexivity. Qed.

Lemma shuffle_perm : forall n pool draws,
    length pool = n ->
    Permutation (fst (np_random.shuffle n pool draws)) pool.
Proof.
  induction n as [|n IH]; intros pool draws Hlen.
  - destruct pool; [constructor | discriminate].
  - destruct pool as [|p rest]; [discriminate|].
    rewrite shuffle_step. cbv zeta.
    set (pool := p :: rest) in *.
    set (k := hd 0 draws mod length pool).
    assert (Hk : k < length pool)
      by (apply Nat.mod_upper_bound; rewrite Hlen; discriminate).
    destruct (nth_split pool p Hk) as [l1 [l2 [Hsplit Hl1]]].
    assert (Hrest : firstn k pool ++ skipn (S k) pool = l1 ++ l2).
    { rewrite Hsplit at 1 2. rewrite <- Hl1.
      rewrite firstn_app, Nat.sub_diag, firstn_all, firstn_O, app_nil_r.
      f_equal.
      rewrite skipn_app.
      rewrite skipn_all2 by lia.
      replace (S (length l1) - length l1) with 1 by lia.
      reflexivity. }
    specialize (IH (firstn k pool ++ skipn (S k) pool) (tl draws)).
    destruct (np_random.shuffle n (firstn k pool ++ skipn (S k) pool) (tl draws))
      as [out draws'].
    simpl fst in *.
    apply Permutation_trans with (nth k pool p :: l1 ++ l2).
    + apply perm_skip. rewrite <- Hrest. apply IH.
      rewrite Hrest. rewrite Hsplit in Hlen.
      rewrite length_app in *. simpl in Hlen. lia.
    + apply Permutation_trans with (l1 ++ nth k pool p :: l2).
      * apply Permutation_middle.
      * rewrite <- Hsplit. apply Permutation_refl.
Qed.

Lemma NoDup_firstn : forall (A : Type) k (l : list A),
    NoDup l -> NoDup (firstn k l).
Proof.
  intros A k l H. rewrite <- (firstn_skipn k l) in H.
  now apply NoDup_app_remove_r in H.
Qed.

Lemma Forall_firstn_of : forall (A : Type) (P : A -> Prop) k (l : list A),
    Forall P l -> Forall P (firstn k l).
Proof.
  intros A P k l H. rewrite <- (firstn_skipn k l) in H.
  apply Forall_app in H. tauto.
Qed.

Lemma NoDup_map_of_nat : forall l : list nat,
    NoDup l -> NoDup (map Z.of_nat l).
Proof.
  induction 1 as [|a l Ha _ IH]; simpl; constructor; [|exact IH].
  intro Hin. apply in_map_iff in Hin. destruct Hin as [b [Hb Hin]].
  apply Nat2Z.inj in Hb. now subst.
Qed.

(** What [choice] returns when it returns: [size] distinct indices
    below [a]; and it returns for every size from 0 to [a]. *)
Lemma choice_spec : forall a size w w' idx,
    np_random.choice a size w = (w', Ok idx) ->
    Z.of_nat (length idx) = size /\
    NoDup idx /\
    Forall (fun i => 0 <= i < Z.of_nat a)%Z idx /\
    _disable_transform w' = _disable_transform w /\
    calls w' = calls w ++ [call_choice a size].
Proof.
  intros a size w w' idx E.
  unfold np_random.choice, PyM.bind, PyM.log in E. simpl in E.
  destruct ((Nat.eqb a 0 && negb (size =? 0)%Z)
            || (Z.of_nat a <? size)%Z || (size <? 0)%Z) eqn:Eg;
    [discriminate|].
  apply orb_false_iff in Eg. destruct Eg as [Eg Hneg].
  apply orb_false_iff in Eg. destruct Eg as [_ Hle].
  apply Z.ltb_ge in Hneg, Hle.
  pose proof (@shuffle_perm a (seq 0 a) (rng w) (length_seq a 0)) as HP.
  unfold np_random.permutation in E.
  destruct (np_random.shuffle a (seq 0 a) (rng w)) as [perm draws'].
  simpl in HP. inversion E; subst; clear E. simpl.
  repeat split.
  - rewrite length_map, length_firstn, (Permutation_length HP), length_seq. lia.
  - apply NoDup_map_of_nat, NoDup_firstn.
    apply (Permutation_NoDup (Permutation_sym HP)). apply seq_NoDup.
  - apply Forall_map, Forall_firstn_of. apply Forall_forall. intros i Hi.
    apply (Permutation_in _ HP) in Hi. apply in_seq in Hi. lia.
Qed.

Lemma choice_total : forall a size w,
    (0 <= size <= Z.of_nat a)%Z ->
    exists w' idx, np_random.choice a size w = (w', Ok idx).
Proof.
  intros a size w [H0 Ha].
  unfold np_random.choice, PyM.bind, PyM.log. simpl.
  replace ((Nat.eqb a 0 && negb (size =? 0)%Z)
           || (Z.of_nat a <? size)%Z || (size <? 0)%Z) with false.
  - destruct (np_random.permutation a (rng w)). eauto.
  - symmetry. apply orb_false_iff. split; [apply orb_false_iff; split|].
    + destruct (Nat.eqb_spec a 0); [|reflexivity]. subst. simpl.
      replace size with 0%Z by lia. reflexivity.
    + apply Z.ltb_ge. lia.
    + apply Z.ltb_ge. lia.
Qed.

Lemma choice_frame : forall a size w w' r,
    np_random.choice a size w = (w', r) ->
    _disable_transform w' = _disable_transform w /\
    calls w' = calls w ++ [call_choice a size].
Proof.
  intros a size w w' r E.
  unfold np_random.choice, PyM.bind, PyM.log in E. simpl in E.
  destruct ((Nat.eqb a 0 && negb (size =? 0)%Z)
            || (Z.of_nat a <? size)%Z || (size <? 0)%Z).
  - inversion E; subst. now split.
  - destruct (np_random.permutation a (rng w)).
    inversion E; subst. now split.
Qed.

(* ================================================================== *)
(** * fit, block by block *)
(* ================================================================== *)

Lemma take0_shape0 : forall x idx xs,
    Array.take0 x idx = Ok xs -> Array.shape0 xs = Ok (length idx).
Proof.
  intros [a|a] idx xs E; unfold Array.take0, np.take0 in E;
    destruct (np.shape a) as [|d0 rest]; simpl in E; try discriminate;
    destruct (mapM (np.normalize_index d0) idx); simpl in E;
    inversion E; reflexivity.
Qed.

Lemma reshape_shape : forall x sh x',
    Array.reshape x sh = Ok x' ->
    Array.shape x' = sh /\ Array.is_floating x' = Array.is_floating x.
Proof.
  intros [a|a] sh x' E; unfold Array.reshape, np.reshape in E;
    destruct (Nat.eqb (np.prod sh) (np.prod (np.shape a))); simpl in E;
    inversion E; split; reflexivity.
Qed.

Lemma shape0_of_shape : forall x n rest,
    Array.shape x = n :: rest -> Array.shape0 x = Ok n.
Proof.
  intros [a|a] n rest E; simpl in *; unfold np.shape0; now rewrite E.
Qed.

Section FitBlocks.

Import GaussianProcessOracle.
Context {sk : Sklearn}.

(** The sub-sample: at most one call, to [np.random.choice]; the flag is
    not touched. *)
Lemma subsample_spec :
  forall x y max_samples w w' r,
    subsample x y max_samples w = (w', r) ->
    _disable_transform w' = _disable_transform w /\
    exists l,
      calls w' = calls w ++ l /\
      drawn y max_samples l /\
      forall idx xs ys,
        r = Ok (idx, xs, ys) -> sampled y max_samples idx xs ys.
Proof.
  intros x y max_samples w w' r E.
  unfold subsample, PyM.bind, PyM.lift, PyM.ret in E.
  destruct (Array.shape0 y) as [N|e] eqn:EN.
  2:{ inversion E; subst. split; [reflexivity|]. exists [].
      rewrite app_nil_r. repeat split; [now left|]. intros; discriminate. }
  destruct (np_random.choice N (Z.min (Z.of_nat N) max_samples) w)
    as [w1 [idx|e]] eqn:Ec.
  2:{ inversion E; subst. destruct (choice_frame _ _ _ Ec) as [Hf Hc].
      split; [exact Hf|]. eexists. split; [exact Hc|].
      split; [right; eauto|]. intros; discriminate. }
  destruct (choice_spec _ _ _ Ec) as [Hlen [Hnd [Hrange [Hf Hc]]]].
  assert (Hw : w' = w1).
  { destruct (Array.take0 x idx); [destruct (Array.take0 y idx)|];
      now inversion E. }
  subst w1. split; [exact Hf|].
  eexists. split; [exact Hc|]. split; [right; eauto|].
  intros idx' xs ys Hr. subst r.
  destruct (Array.take0 x idx) as [xs'|] eqn:Ex; [|discriminate].
  destruct (Array.take0 y idx) as [ys'|] eqn:Ey; [|discriminate].
  inversion E; subst. exists N. repeat split; auto.
  - eapply take0_shape0; eauto.
  - eapply take0_shape0; eauto.
Qed.

(** Conversion and normalization: the calls made and the outcome, step
    by step; the flag is not touched. *)
Lemma preprocess_spec :
  forall dataset x y w w' r,
    preprocess dataset x y w = (w', r) ->
    _disable_transform w' = _disable_transform w /\
    exists l, calls w' = calls w ++ l /\ preprocessed dataset x y l r.
Proof.
  intros dataset x y w w' r E.
  unfold preprocess, preprocessed, conversion, normalization in *.
  unfold PyM.bind, PyM.lift, PyM.ret, PyM.log in E.
  destruct (is_discrete dataset && Array.is_floating x); simpl in *.
  - destruct (to_integers dataset x) as [x1|e]; simpl in *.
    + destruct (Array.is_floating x1); simpl in *.
      * destruct (normalize_x dataset x1) as [x2|e]; simpl in *.
        -- destruct (normalize_y dataset y); inversion E; subst; simpl;
             (split; [reflexivity|]); eexists;
             (split; [rewrite <- !app_assoc; reflexivity|]); now split.
        -- inversion E; subst; simpl. split; [reflexivity|]. eexists.
           split; [rewrite <- !app_assoc; reflexivity|]. now split.
      * destruct (normalize_y dataset y); inversion E; subst; simpl;
          (split; [reflexivity|]); eexists;
          (split; [rewrite <- !app_assoc; reflexivity|]); now split.
    + inversion E; subst; simpl. split; [reflexivity|]. eexists.
      split; [reflexivity|]. now split.
  - destruct (Array.is_floating x); simpl in *.
    + destruct (normalize_x dataset x) as [x2|e]; simpl in *.
      * destruct (normalize_y dataset y); inversion E; subst; simpl;
          (split; [reflexivity|]); eexists;
          (split; [rewrite <- !app_assoc; reflexivity|]); now split.
      * inversion E; subst; simpl. split; [reflexivity|]. eexists.
        split; [reflexivity|]. now split.
    + destruct (normalize_y dataset y); inversion E; subst; simpl;
        (split; [reflexivity|]); eexists;
        (split; [reflexivity|]); now split.
Qed.

(** The fit of the regressor: at most one call, to [model.fit]; the flag
    is not touched. *)
Lemma fit_model_spec :
  forall model x y w w' r,
    fit_model model x y w = (w', r) ->
    _disable_transform w' = _disable_transform w /\
    exists l, calls w' = calls w ++ l /\ fitted_on x y l.
Proof.
  intros model x y w w' r E.
  unfold fit_model, PyM.bind, PyM.lift, PyM.log in E.
  assert (Hnone : forall e, (w', r) = (w, Raise e) ->
            _disable_transform w' = _disable_transform w /\
            exists l, calls w' = calls w ++ l /\ fitted_on x y l).
  { intros e He. inversion He; subst. split; [reflexivity|]. exists [].
    rewrite app_nil_r. split; [reflexivity | now left]. }
  destruct (Array.shape0 x) as [n|e] eqn:En; [|eapply Hnone; eauto].
  destruct (tl (Array.shape x)) as [|d1 rest]; [eapply Hnone; eauto|].
  match type of E with
  | context [Array.reshape x ?sh] =>
      destruct (Array.reshape x sh) as [x2|e] eqn:Ex; [|eapply Hnone; eauto]
  end.
  destruct (Array.shape0 y) as [m|e] eqn:Em; [|eapply Hnone; eauto].
  destruct (Array.reshape y [m]) as [y1|e] eqn:Ey; [|eapply Hnone; eauto].
  destruct (reshape_shape _ _ Ex) as [Hsx Hdx].
  destruct (reshape_shape _ _ Ey) as [Hsy _].
  simpl in E. inversion E; subst. simpl. split; [reflexivity|].
  eexists. split; [reflexivity|]. right.
  exists x2, y1, n, m. repeat split; auto; eapply shape0_of_shape; eauto.
Qed.

End FitBlocks.

(* ================================================================== *)
(** * fit, as a whole *)
(* ================================================================== *)

(** Splits a run of [fit] into its stages, one equation per stage. *)
Ltac fit_unfold E :=
  unfold GaussianProcessOracle.fit, PyM.bind, PyM.lift,
         PyM.set_disable_transform, PyM.ret in E;
  simpl in E.

Ltac fit_split E :=
  repeat match type of E with
         | context [match ?c with _ => _ end] => destruct c eqn:?
         end;
  inversion E; subst; clear E.

Ltac fit_stages E := fit_unfold E; fit_split E.

(** Reads off what a stage did to the flag and to the call log. *)
Ltac stage_facts :=
  repeat match goal with
         | H : GaussianProcessOracle.subsample _ _ _ _ = _ |- _ =>
             let F := fresh "Hflag" in
             let l := fresh "l" in
             let C := fresh "Hcalls" in
             let K := fresh "Hdrawn" in
             let R := fresh "Hres" in
             destruct (subsample_spec _ _ _ _ H) as [F [l [C [K R]]]];
             try specialize (R _ _ _ eq_refl);
             clear H
         | H : GaussianProcessOracle.preprocess _ _ _ _ = _ |- _ =>
             let F := fresh "Hflag" in
             let l := fresh "l" in
             let C := fresh "Hcalls" in
             let R := fresh "Hpre" in
             destruct (preprocess_spec _ _ _ _ H) as [F [l [C R]]];
             clear H
         | H : GaussianProcessOracle.fit_model _ _ _ _ = _ |- _ =>
             let F := fresh "Hflag" in
             let l := fresh "l" in
             let C := fresh "Hcalls" in
             let K := fresh "Hfit" in
             destruct (fit_model_spec _ _ _ _ H) as [F [l [C K]]];
             clear H
         end.

Lemma app_eq_self : forall (A : Type) (a l : list A), a ++ l = a -> l = [].
Proof.
  intros A a l E. apply (app_inv_head a). now rewrite app_nil_r.
Qed.

(** Reads the calls made since the first world off the chain of stages. *)
Ltac trace_of Hl :=
  unfold calls_since in Hl; simpl in Hl; symmetry in Hl;
  repeat match goal with
         | H : calls ?a = _ |- _ => rewrite H in Hl; clear H
         end;
  rewrite <- ?app_assoc in Hl;
  first [apply app_eq_self in Hl | apply app_inv_head in Hl].

Section Fit.

Import GaussianProcessOracle.
Context {sk : Sklearn}.

(** The flag after [fit]: False after a normal return; True after an
    exception, unless the regressor could not even be built, in which
    case nothing was touched. *)
Lemma fit_flag :
  forall dataset kernel max_samples kwargs w w' r,
    fit dataset kernel max_samples kwargs w = (w', r) ->
    match r with
    | Ok _ => _disable_transform w' = false
    | Raise e =>
        (GaussianProcessRegressor (select_kernel dataset kernel) kwargs = Raise e
         /\ w' = w)
        \/ _disable_transform w' = true
    end.
Proof.
  intros dataset kernel max_samples kwargs w w' r E.
  fit_stages E; stage_facts; simpl in *; auto; right; congruence.
Qed.

(** The calls of a run of [fit], stage by stage: the draw, the
    conversion and normalization of the sub-sample, the fit of the
    regressor on what they gave. *)
Lemma fit_trace :
  forall dataset kernel max_samples kwargs w w' r l,
    fit dataset kernel max_samples kwargs w = (w', r) ->
    calls_since w w' l ->
    exists l1 l2 l3,
      l = l1 ++ l2 ++ l3 /\
      (l1 = [] \/
       exists yy, y dataset true = Ok yy /\ drawn yy max_samples l1) /\
      ((l2 = [] /\ l3 = []) \/
       exists yy idx xs ys r2,
         y dataset true = Ok yy /\
         sampled yy max_samples idx xs ys /\
         preprocessed dataset xs ys l2 r2 /\
         (l3 = [] \/
          exists x2 y2, r2 = Ok (x2, y2) /\ fitted_on x2 y2 l3)).
Proof.
  intros dataset kernel max_samples kwargs w w' r l E Hl.
  fit_stages E; stage_facts; trace_of Hl; subst l.
  all: match goal with
       | Hd : drawn _ _ ?l1, Hp : preprocessed _ _ _ ?l2 _,
         Hf : fitted_on _ _ ?l3 |- _ =>
           exists l1, l2, l3; split; [reflexivity|];
           split; [right; eauto|]; right;
           do 5 eexists; repeat split; eauto
       | Hd : drawn _ _ ?l1, Hp : preprocessed _ _ _ ?l2 _ |- _ =>
           exists l1, l2, []; split; [now rewrite app_nil_r|];
           split; [right; eauto|]; right;
           do 5 eexists; repeat split; eauto
       | Hd : drawn _ _ ?l1 |- _ =>
           exists l1, [], []; split; [now rewrite app_nil_r|];
           split; [right; eauto | left; auto]
       | _ =>
           exists [], [], []; split; [reflexivity|];
           split; left; auto
       end.
Qed.

End Fit.

Section FitFlag.

Import GaussianProcessOracle.
Context {sk : Sklearn}.

(** C10.  On every normal return of [fit] the dataset's
    [_disable_transform] is False, whatever it was before the call. *)
Theorem fit_returns_with_transform_enabled :
  forall dataset kernel max_samples kwargs w w' model,
    fit dataset kernel max_samples kwargs w = (w', Ok model) ->
    _disable_transform w' = false.
Proof.
  intros dataset kernel max_samples kwargs w w' model E.
  exact (fit_flag _ _ _ _ _ E).
Qed.

(** C1, as the code has it.  For a dataset whose [_disable_transform]
    is False before the call, after [fit] returns normally the flag
    equals its value before the call. *)
Theorem fit_restores_enabled_transform :
  forall dataset kernel max_samples kwargs w w' model,
    _disable_transform w = false ->
    fit dataset kernel max_samples kwargs w = (w', Ok model) ->
    _disable_transform w' = _disable_transform w.
Proof.
  intros dataset kernel max_samples kwargs w w' model Hw E.
  rewrite Hw. exact (fit_flag _ _ _ _ _ E).
Qed.

End FitFlag.

(** A run on logits that starts with the transforms disabled and returns. *)
Lemma fit_returns_with_transform_enabled_witness :
  _disable_transform (Demo.fresh true) = true /\
  exists w' model,
    GaussianProcessOracle.fit Demo.logits None 5 tt (Demo.fresh true)
    = (w', Ok model) /\
    _disable_transform w' = false.
Proof.
  split; [reflexivity|].
  eexists. eexists. split; [vm_compute; reflexivity|].
  eapply (@fit_returns_with_transform_enabled
            Demo.sklearn Demo.logits None 5%Z tt (Demo.fresh true)).
  vm_compute. reflexivity.
Defined.

(** A run on integer tokens that starts with the transforms enabled. *)
Lemma fit_restores_enabled_transform_witness :
  exists w' model,
    GaussianProcessOracle.fit Demo.tokens None 2 tt (Demo.fresh false)
    = (w', Ok model) /\
    _disable_transform w' = _disable_transform (Demo.fresh false).
Proof.
  eexists. eexists. split; [vm_compute; reflexivity|].
  eapply (@fit_restores_enabled_transform
            Demo.sklearn Demo.tokens None 2%Z tt (Demo.fresh false)).
  - reflexivity.
  - vm_compute. reflexivity.
Defined.

(** C1, as stated, fails twice.  A negative [max_samples] makes
    [np.random.choice] raise ValueError after the flag was set: the
    dataset is left with its transforms disabled.  And a dataset whose
    transforms were disabled before a call that returns has them
    enabled afterwards. *)
Lemma fit_leaves_transform_changed :
  (exists w',
      GaussianProcessOracle.fit Demo.tokens None (-1) tt (Demo.fresh false)
      = (w', Raise ValueError) /\
      _disable_transform (Demo.fresh false) = false /\
      _disable_transform w' = true) /\
  (exists w' model,
      GaussianProcessOracle.fit Demo.tokens None 2 tt (Demo.fresh true)
      = (w', Ok model) /\
      _disable_transform (Demo.fresh true) = true /\
      _disable_transform w' = false).
Proof.
  split.
  - eexists. split; [vm_compute; reflexivity|]. split; reflexivity.
  - eexists. eexists. split; [vm_compute; reflexivity|]. split; reflexivity.
Qed.

(* ================================================================== *)
(** * fit: the size of the sample *)
(* ================================================================== *)

(** The calls of the conversion and normalization block are calls to the
    dataset; its transforms keeping the batch axis, so does the block. *)
Lemma preprocessed_rows :
  forall dataset x y l r,
    preprocessed dataset x y l r ->
    (forall a s, ~ In (call_choice a s) l) /\
    (forall x' y', ~ In (call_model_fit x' y') l) /\
    (keeps_batch (to_integers dataset) ->
     keeps_batch (normalize_x dataset) ->
     keeps_batch (normalize_y dataset) ->
     forall x2 y2 n m,
       r = Ok (x2, y2) ->
       Array.shape0 x2 = Ok n -> Array.shape0 y2 = Ok m ->
       Array.shape0 x = Ok n /\ Array.shape0 y = Ok m).
Proof.
  intros dataset x y l r. unfold preprocessed, conversion, normalization.
  destruct (is_discrete dataset && Array.is_floating x); simpl;
    [destruct (to_integers dataset x) as [x1|] eqn:E1;
     [destruct (Array.is_floating x1); simpl;
      [destruct (normalize_x dataset x1) as [x2|] eqn:E2|]|]
    |destruct (Array.is_floating x); simpl;
     [destruct (normalize_x dataset x) as [x2|] eqn:E2|]];
    intros [-> ->];
    (split; [solve [intros; simpl; intuition discriminate]|]);
    (split; [solve [intros; simpl; intuition discriminate]|]);
    intros K1 K2 K3 x2' y2 n m Hr Hn Hm; try discriminate;
    destruct (normalize_y dataset y) as [y'|] eqn:E3; inversion Hr; subst;
    split; eauto.
Qed.

Section FitSampleSize.

Import GaussianProcessOracle.
Context {sk : Sklearn}.

(** Every call [fit] makes respects the sample size. *)
Lemma fit_calls_respect_sample_size :
  forall dataset kernel max_samples kwargs yy N w w' r l,
    keeps_batch (to_integers dataset) ->
    keeps_batch (normalize_x dataset) ->
    keeps_batch (normalize_y dataset) ->
    y dataset true = Ok yy ->
    Array.shape0 yy = Ok N ->
    fit dataset kernel max_samples kwargs w = (w', r) ->
    calls_since w w' l ->
    Forall (sample_call N (Z.min (Z.of_nat N) max_samples)) l.
Proof.
  intros dataset kernel max_samples kwargs yy N w w' r l K1 K2 K3 Hy HN E Hl.
  destruct (fit_trace _ _ _ _ E Hl) as [l1 [l2 [l3 [-> [H1 H23]]]]].
  rewrite !Forall_app. split; [|split].
  - destruct H1 as [->|[yy' [Hy' [->|[N' [HN' ->]]]]]]; try constructor.
    + rewrite Hy in Hy'. inversion Hy'; subst yy'.
      rewrite HN in HN'. inversion HN'; subst N'. now split.
    + constructor.
  - destruct H23 as [[-> _]|[yy' [idx [xs [ys [r2 [_ [_ [Hpre _]]]]]]]]];
      [constructor|].
    destruct (preprocessed_rows _ _ _ _ _ Hpre) as [Hc [Hm _]].
    apply Forall_forall. intros [a s|x'|x'|y'|x' y'] Hin; simpl; auto.
    + elim (Hc _ _ Hin).
    + elim (Hm _ _ Hin).
  - destruct H23
      as [[_ ->]|[yy' [idx [xs [ys [r2 [Hy' [Hs [Hpre [->|Hfit]]]]]]]]]];
      try constructor.
    destruct Hfit
      as [x2 [y2 [-> [->|[x3 [y3 [n [m [-> [Hn [Hn3 [Hm [Hm3 _]]]]]]]]]]]]];
      [constructor|].
    rewrite Hy in Hy'. inversion Hy'; subst yy'.
    destruct Hs as [N' [HN' [Hlen [_ [_ [Hxs Hys]]]]]].
    rewrite HN in HN'. inversion HN'; subst N'.
    destruct (preprocessed_rows _ _ _ _ _ Hpre) as [_ [_ Hrows]].
    destruct (Hrows K1 K2 K3 x2 y2 n m eq_refl Hn Hm) as [Hxn Hym].
    rewrite Hxs in Hxn. rewrite Hys in Hym.
    inversion Hxn; inversion Hym; subst.
    constructor; [|constructor]. exists (length idx). auto.
Qed.

(** C3.  For a dataset of [N] examples and any [max_samples]:
    [np.random.choice] is asked for [min(N, max_samples)] of [N] indices
    and delivers whenever [max_samples >= 0]; a sub-sample, once drawn,
    has exactly that many indices, pairwise distinct and below [N], and
    as many designs and scores; and [model.fit] is only ever called on
    that many examples (the dataset's transforms keeping the batch
    axis). *)
Theorem fit_sample_size :
  forall dataset kernel max_samples kwargs yy N,
    keeps_batch (to_integers dataset) ->
    keeps_batch (normalize_x dataset) ->
    keeps_batch (normalize_y dataset) ->
    y dataset true = Ok yy ->
    Array.shape0 yy = Ok N ->
    (forall w, (0 <= max_samples)%Z ->
       exists w1 idx,
         np_random.choice N (Z.min (Z.of_nat N) max_samples) w = (w1, Ok idx)) /\
    (forall xx w w1 idx xs ys,
       subsample xx yy max_samples w = (w1, Ok (idx, xs, ys)) ->
       Z.of_nat (length idx) = Z.min (Z.of_nat N) max_samples /\
       NoDup idx /\
       Forall (fun i => 0 <= i < Z.of_nat N)%Z idx /\
       Array.shape0 xs = Ok (length idx) /\
       Array.shape0 ys = Ok (length idx)) /\
    (forall w w' r l,
       fit dataset kernel max_samples kwargs w = (w', r) ->
       calls_since w w' l ->
       (forall a s, In (call_choice a s) l ->
                    a = N /\ s = Z.min (Z.of_nat N) max_samples) /\
       (forall x' y', In (call_model_fit x' y') l ->
          exists n, Z.of_nat n = Z.min (Z.of_nat N) max_samples /\
                    Array.shape0 x' = Ok n /\ Array.shape0 y' = Ok n)).
Proof.
  intros dataset kernel max_samples kwargs yy N K1 K2 K3 Hy HN.
  split; [|split].
  - intros w Hmax. apply choice_total. lia.
  - intros xx w w1 idx xs ys E.
    destruct (subsample_spec _ _ _ _ E) as [_ [l [_ [_ Hres]]]].
    destruct (Hres idx xs ys eq_refl) as [N' [HN' Hrest]].
    rewrite HN in HN'. inversion HN'; subst N'. exact Hrest.
  - intros w w' r l E Hl.
    pose proof (fit_calls_respect_sample_size
                  dataset kernel max_samples kwargs K1 K2 K3 Hy HN E Hl) as HQ.
    rewrite Forall_forall in HQ.
    split; intros ? ? Hin; exact (HQ _ Hin).
Qed.

End FitSampleSize.

Lemma keeps_batch_id : keeps_batch (fun a => Ok a).
Proof. intros a b n E Hb. inversion E; subst. exact Hb. Qed.

Lemma keeps_batch_logits : forall k, keeps_batch (Demo.logits_to_integers k).
Proof.
  intros k [a|a] b n E Hb; simpl in E; [|discriminate].
  inversion E; subst; clear E. simpl in *. unfold np.shape0 in *. simpl in Hb.
  destruct (np.shape a) as [|d0 [|d1 rest]]; simpl in Hb;
    try discriminate. exact Hb.
Qed.

(** Two of three examples: the run, its draw and its call to
    [model.fit]. *)
Lemma fit_sample_size_witness :
  (exists w1 idx,
      np_random.choice 3 (Z.min 3 2) (Demo.fresh false) = (w1, Ok idx)) /\
  exists w' model l X Y,
    GaussianProcessOracle.fit Demo.tokens None 2 tt (Demo.fresh false)
    = (w', Ok model) /\
    calls_since (Demo.fresh false) w' l /\
    In (call_model_fit X Y) l /\
    exists n, Z.of_nat n = Z.min 3 2 /\
              Array.shape0 X = Ok n /\ Array.shape0 Y = Ok n.
Proof.
  destruct (@fit_sample_size Demo.sklearn Demo.tokens None 2%Z tt
              (FloatArray {| np.shape := [3; 1]; np.data := [1; 2; 3]%float |})
              3 (keeps_batch_logits 2) keeps_batch_id keeps_batch_id
              eq_refl eq_refl)
    as [Hdraw [_ Hfit]].
  split; [apply (Hdraw (Demo.fresh false)); lia|].
  destruct (@GaussianProcessOracle.fit Demo.sklearn Demo.tokens None 2 tt
              (Demo.fresh false)) as [w' r] eqn:E.
  pose proof E as E'. vm_compute in E'. inversion E'; subst w' r; clear E'.
  eexists. eexists. eexists. eexists. eexists.
  split; [reflexivity|]. split; [reflexivity|]. split.
  - simpl. right. right. left. reflexivity.
  - eapply (Hfit _ _ _ _ E); [reflexivity|].
    simpl. right. right. left. reflexivity.
Defined.

(* ================================================================== *)
(** * fit: conversion to integers and normalization *)
(* ================================================================== *)



Section FitDtype.

Import GaussianProcessOracle.
Context {sk : Sklearn}.



End FitDtype.



(* ================================================================== *)
(** * Persistence *)
(* ================================================================== *)

Lemma getinfo_write : forall z n b name,
    zipfile.getinfo (zipfile.write z n b) name =
    if String.eqb n name then Some b else zipfile.getinfo z name.
Proof.
  intros [m l] n b name. unfold zipfile.write, zipfile.getinfo. simpl.
  induction l as [|[n0 b0] l IH]; simpl.
  - reflexivity.
  - rewrite IH. destruct (String.eqb n name); reflexivity.
Qed.

Section Persistence.

Import GaussianProcessOracle.
Context {sk : Sklearn} {pk : Pickle Model}.

(** C6.  A model saved into an archive by [save_model_to_zip] (which
    succeeds on an archive open for writing whenever pickle does) and
    read back by [load_model_from_zip] is the model that was saved, so
    its predictions on any batch are the original's (pickle returning
    what it was given).  Saving adds the member [gaussian_process.pkl]
    and leaves every other member as it was; loading reads that member
    and nothing else. *)
Theorem save_then_load :
  forall (model : Model) (zip_archive : ZipFile),
    (zipfile.writable zip_archive = true ->
     snd (pkl_dump model) = Ok tt ->
     exists zip_archive',
       save_model_to_zip model zip_archive = (zip_archive', Ok tt)) /\
    (forall zip_archive',
        save_model_to_zip model zip_archive = (zip_archive', Ok tt) ->
        (exists loaded,
            load_model_from_zip zip_archive' = Ok loaded /\
            forall x, model_predict loaded x = model_predict model x) /\
        (exists file,
            zipfile.getinfo zip_archive' "gaussian_process.pkl" = Some file /\
            pkl_dump model = (file, Ok tt)) /\
        (forall name,
            name <> "gaussian_process.pkl"%string ->
            zipfile.getinfo zip_archive' name
            = zipfile.getinfo zip_archive name)) /\
    (forall z1 z2,
        zipfile.getinfo z1 "gaussian_process.pkl"
        = zipfile.getinfo z2 "gaussian_process.pkl" ->
        load_model_from_zip z1 = load_model_from_zip z2).
Proof.
  intros model z. split; [|split].
  - intros Hw Hd. unfold save_model_to_zip. rewrite Hw.
    destruct (pkl_dump model) as [written r]. simpl in Hd. subst r. eauto.
  - intros z' E. unfold save_model_to_zip in E.
    destruct (zipfile.writable z); [|discriminate].
    destruct (pkl_dump model) as [written r] eqn:Ed.
    inversion E; subst; clear E.
    assert (Hmember : zipfile.getinfo (zipfile.write z member written) member
                      = Some written).
    { rewrite getinfo_write. now rewrite String.eqb_refl. }
    split; [|split].
    + exists model. split; [|reflexivity].
      unfold load_model_from_zip, zipfile.read. rewrite Hmember. simpl.
      now apply pkl_roundtrip.
    + exists written. split; [exact Hmember | reflexivity].
    + intros name Hname. rewrite getinfo_write.
      destruct (String.eqb_spec member name) as [Heq|]; [|reflexivity].
      elim Hname. symmetry. exact Heq.
  - intros z1 z2 Hz. unfold load_model_from_zip, zipfile.read, member.
    now rewrite Hz.
Qed.

End Persistence.

(** A counting model saved into an archive that already holds a member
    of the same name, and read back. *)
Lemma save_then_load_witness :
  exists z',
    @GaussianProcessOracle.save_model_to_zip Demo.counting Demo.unary_pickle
      3 Demo.archive = (z', Ok tt) /\
    @GaussianProcessOracle.load_model_from_zip Demo.counting Demo.unary_pickle z'
    = Ok 3 /\
    zipfile.getinfo z' "README" = zipfile.getinfo Demo.archive "README".
Proof.
  destruct (@save_then_load Demo.counting Demo.unary_pickle 3 Demo.archive)
    as [Hsave [Hload _]].
  destruct (Hsave eq_refl eq_refl) as [z' Hz'].
  exists z'. split; [exact Hz'|].
  destruct (Hload z' Hz') as [[loaded [Hl _]] [_ Hother]].
  split.
  - rewrite Hl. f_equal.
    vm_compute in Hz'. inversion Hz'; subst z'.
    vm_compute in Hl. now inversion Hl.
  - apply Hother. discriminate.
Defined.

(* ================================================================== *)
(** * Scoring *)
(* ================================================================== *)

Section Scoring.

Import GaussianProcessOracle.
Context {sk : Sklearn}.


End Scoring.



(* ================================================================== *)
(** * DiscreteSequenceKernel: tokens, errors and values *)
(* ================================================================== *)

Lemma normalize_index_in_range : forall n a,
    match np.normalize_index n a with
    | Ok k => (- Z.of_nat n <= a < Z.of_nat n)%Z /\ k < n
    | Raise e => e = IndexError /\ ~ (- Z.of_nat n <= a < Z.of_nat n)%Z
    end.
Proof.
  intros n a. unfold np.normalize_index.
  destruct ((0 <=? a)%Z && (a <? Z.of_nat n)%Z) eqn:E1.
  - apply andb_true_iff in E1. destruct E1 as [H1 H2].
    apply Z.leb_le in H1. apply Z.ltb_lt in H2. lia.
  - destruct ((- Z.of_nat n <=? a)%Z && (a <? 0)%Z) eqn:E2.
    + apply andb_true_iff in E2. destruct E2 as [H1 H2].
      apply Z.leb_le in H1. apply Z.ltb_lt in H2. lia.
    + split; [reflexivity|]. intros [H1 H2].
      apply andb_false_iff in E1. apply andb_false_iff in E2.
      destruct E1 as [E1|E1]; [apply Z.leb_gt in E1|apply Z.ltb_ge in E1];
        destruct E2 as [E2|E2]; [apply Z.leb_gt in E2|apply Z.ltb_ge in E2
                                |apply Z.leb_gt in E2|apply Z.ltb_ge in E2];
        lia.
Qed.

Lemma mapM_normalize_in_range : forall n x,
    match mapM (np.normalize_index n) x with
    | Ok ks => in_range n x /\ Forall (fun k => k < n) ks
    | Raise e => e = IndexError /\ ~ in_range n x
    end.
Proof.
  intros n x. induction x as [|a x IH]; simpl.
  - split; constructor.
  - pose proof (normalize_index_in_range n a) as Ha.
    destruct (np.normalize_index n a) as [k|e]; simpl.
    + destruct (mapM (np.normalize_index n) x) as [ks|e]; simpl.
      * destruct IH as [IH1 IH2]. split; constructor; tauto.
      * destruct IH as [-> IH]. split; [reflexivity|].
        intro H. inversion H; subst. contradiction.
    + destruct Ha as [-> Ha]. split; [reflexivity|].
      intro H. inversion H; subst. contradiction.
Qed.

Section KernelTokens.

Import DiscreteSequenceKernel.
Context {A : Type} `{Scalar A}.

Lemma evaluate_kernel_outcome :
  forall (self : t A) r c x y,
    np.shape (kernel_matrix self) = [r; c] ->
    match evaluate_kernel self x y with
    | Ok _ => in_range r x /\ in_range c y
    | Raise e => e = IndexError /\ ~ (in_range r x /\ in_range c y)
    end.
Proof.
  intros [M] r c x y Hs. simpl in Hs.
  unfold evaluate_kernel, np.take0, np.take1. simpl. rewrite Hs.
  pose proof (mapM_normalize_in_range r x) as Hx.
  destruct (mapM (np.normalize_index r) x) as [xs|e]; simpl.
  - pose proof (mapM_normalize_in_range c y) as Hy.
    destruct (mapM (np.normalize_index c) y) as [ys|e']; simpl; tauto.
  - tauto.
Qed.

(** X1.  Over an [r] by [c] kernel matrix, [evaluate_kernel(x, y)]
    returns a value exactly when every token of [x] lies in [-r, r) and
    every token of [y] in [-c, c); when it raises, it raises IndexError. *)
Theorem evaluate_kernel_fails_only_out_of_range :
  forall (self : t A) r c x y,
    np.shape (kernel_matrix self) = [r; c] ->
    ((exists v, evaluate_kernel self x y = Ok v) <->
     in_range r x /\ in_range c y) /\
    (forall e, evaluate_kernel self x y = Raise e -> e = IndexError).
Proof.
  intros self r c x y Hs.
  pose proof (evaluate_kernel_outcome self x y Hs) as Ho.
  destruct (evaluate_kernel self x y) as [v|e].
  - split; [split; [intros _; exact Ho | intros _; eauto]|].
    intros e He. discriminate.
  - destruct Ho as [-> Hn]. split; [split|].
    + intros [v Hv]. discriminate.
    + intros Hr. contradiction.
    + intros e He. now inversion He.
Qed.

End KernelTokens.

(** One sequence in range, one with a token that is not. *)
Lemma evaluate_kernel_fails_only_out_of_range_witness :
  (exists v,
      DiscreteSequenceKernel.evaluate_kernel Demo.asymmetric [0; -2]%Z [1]%Z
      = Ok v) /\
  DiscreteSequenceKernel.evaluate_kernel Demo.asymmetric [0; 2]%Z [1]%Z
  = Raise IndexError.
Proof.
  destruct (@evaluate_kernel_fails_only_out_of_range
              float float64 Demo.asymmetric 2 2 [0; -2]%Z [1]%Z eq_refl)
    as [[_ Hok] _].
  split.
  - apply Hok. split; repeat constructor; lia.
  - destruct (@evaluate_kernel_fails_only_out_of_range
                float float64 Demo.asymmetric 2 2 [0; 2]%Z [1]%Z eq_refl)
      as [_ Hbad].
    destruct (DiscreteSequenceKernel.evaluate_kernel
                Demo.asymmetric [0; 2]%Z [1]%Z) as [v|e] eqn:E.
    + vm_compute in E. discriminate.
    + now rewrite (Hbad e eq_refl).
Defined.



Lemma flat_map_nil : forall (I J : Type) (l : list I),
    flat_map (fun _ : I => @nil J) l = [].
Proof. intros I J l. induction l; simpl; auto. Qed.

Lemma mapM_perm :
  forall (S T : Type) (f : S -> result T) (l l' : list S),
    Permutation l l' ->
    match mapM f l, mapM f l' with
    | Ok bs, Ok bs' => Permutation bs bs'
    | Raise _, Raise _ => True
    | _, _ => False
    end.
Proof.
  intros S T f l l' HP.
  induction HP as [|a l l' _ IH|a b l|l l' l'' _ IH1 _ IH2]; simpl.
  - constructor.
  - destruct (f a); simpl; [|exact I].
    destruct (mapM f l), (mapM f l'); simpl; auto.
  - destruct (f a), (f b); simpl; auto;
      destruct (mapM f l); simpl; auto. apply perm_swap.
  - destruct (mapM f l), (mapM f l'), (mapM f l''); auto; try contradiction.
    eapply Permutation_trans; eauto.
Qed.

Lemma flat_map_perm2 :
  forall (I J K : Type) (g : I -> J -> list K) (xs xs' : list I)
         (ys ys' : list J),
    Permutation xs xs' -> Permutation ys ys' ->
    Permutation (flat_map (fun a => flat_map (g a) ys) xs)
                (flat_map (fun a => flat_map (g a) ys') xs').
Proof.
  intros I J K g xs xs' ys ys' Hx Hy.
  apply Permutation_trans
    with (flat_map (fun a => flat_map (g a) ys') xs).
  - clear Hx. induction xs as [|a xs IH]; simpl; [constructor|].
    apply Permutation_app; [|exact IH].
    now apply Permutation_flat_map.
  - now apply Permutation_flat_map.
Qed.

Section KernelValues.

Import DiscreteSequenceKernel.
Context {A : Type} `{Scalar A}.


(** X3.  Negative tokens count from the end of the alphabet: over an
    [r] by [c] kernel matrix, shifting every token of [x] down by [r]
    and every token of [y] down by [c] (tokens taken from 0) changes
    nothing. *)
Theorem evaluate_kernel_negative_tokens :
  forall (self : t A) r c x y,
    np.shape (kernel_matrix self) = [r; c] ->
    Forall (fun a => 0 <= a < Z.of_nat r)%Z x ->
    Forall (fun b => 0 <= b < Z.of_nat c)%Z y ->
    evaluate_kernel self (map (fun a => a - Z.of_nat r)%Z x)
                         (map (fun b => b - Z.of_nat c)%Z y)
    = evaluate_kernel self x y.
Proof.
  intros [M] r c x y Hs Hx Hy. simpl in Hs.
  assert (Hwrap : forall n l,
             Forall (fun a => 0 <= a < Z.of_nat n)%Z l ->
             mapM (np.normalize_index n) (map (fun a => a - Z.of_nat n)%Z l)
             = mapM (np.normalize_index n) l).
  { intros n l Hl. induction Hl as [|a l Ha _ IH]; simpl; [reflexivity|].
    rewrite IH. f_equal. unfold np.normalize_index.
    replace ((0 <=? a - Z.of_nat n)%Z) with false
      by (symmetry; apply Z.leb_gt; lia).
    replace ((0 <=? a)%Z) with true by (symmetry; apply Z.leb_le; lia).
    replace ((a <? Z.of_nat n)%Z) with true by (symmetry; apply Z.ltb_lt; lia).
    replace ((- Z.of_nat n <=? a - Z.of_nat n)%Z) with true
      by (symmetry; apply Z.leb_le; lia).
    replace ((a - Z.of_nat n <? 0)%Z) with true
      by (symmetry; apply Z.ltb_lt; lia).
    simpl. do 2 f_equal. lia. }
  unfold evaluate_kernel, np.take0, np.take1. simpl. rewrite Hs.
  rewrite (Hwrap r x Hx), length_map.
  destruct (mapM (np.normalize_index r) x) as [xs|e]; simpl; [|reflexivity].
  rewrite (Hwrap c y Hy), length_map. reflexivity.
Qed.

(** X4.  The kernel looks at which tokens occur and how often, not at
    where: over a well-formed [r] by [c] matrix whose sums are exact,
    reordering the tokens of either sequence changes neither the value
    nor the failure. *)
Theorem evaluate_kernel_ignores_order :
  ExactAdd A ->
  forall (self : t A) r c x x' y y',
    np.shape (kernel_matrix self) = [r; c] ->
    np.well_formed (kernel_matrix self) ->
    Permutation x x' ->
    Permutation y y' ->
    evaluate_kernel self x y = evaluate_kernel self x' y'.
Proof.
  intros HE self r c x x' y y' Hs Hwf Px Py.
  pose proof (evaluate_kernel_outcome self x y Hs) as H1.
  pose proof (evaluate_kernel_outcome self x' y' Hs) as H2.
  assert (Hrange : in_range r x /\ in_range c y <->
                   in_range r x' /\ in_range c y').
  { unfold in_range. split; intros [Hx Hy]; split.
    - exact (Permutation_Forall Px Hx).
    - exact (Permutation_Forall Py Hy).
    - exact (Permutation_Forall (Permutation_sym Px) Hx).
    - exact (Permutation_Forall (Permutation_sym Py) Hy). }
  destruct (evaluate_kernel self x y) as [v|e] eqn:E1;
    destruct (evaluate_kernel self x' y') as [v'|e'] eqn:E2.
  - destruct (evaluate_kernel_2d self x y Hs Hwf E1) as [xs [ys [Ex [Ey ->]]]].
    destruct (evaluate_kernel_2d self x' y' Hs Hwf E2)
      as [xs' [ys' [Ex' [Ey' ->]]]].
    pose proof (mapM_perm (np.normalize_index r) Px) as Hpx.
    pose proof (mapM_perm (np.normalize_index c) Py) as Hpy.
    rewrite Ex, Ex' in Hpx. rewrite Ey, Ey' in Hpy.
    f_equal. apply (fold_left_add_perm HE).
    now apply flat_map_perm2.
  - tauto.
  - tauto.
  - destruct H1 as [-> _]. destruct H2 as [-> _]. reflexivity.
Qed.

(** X5.  An empty sequence has similarity zero with every sequence of
    valid tokens, on either side. *)
Theorem evaluate_kernel_empty :
  forall (self : t A) r c x y,
    np.shape (kernel_matrix self) = [r; c] ->
    (in_range c y -> evaluate_kernel self [] y = Ok zero) /\
    (in_range r x -> evaluate_kernel self x [] = Ok zero).
Proof.
  intros [M] r c x y Hs. simpl in Hs.
  unfold evaluate_kernel, np.take0, np.take1. simpl. rewrite Hs. simpl.
  split.
  - intros Hy. pose proof (mapM_normalize_in_range c y) as Hm.
    destruct (mapM (np.normalize_index c) y); simpl; [reflexivity|tauto].
  - intros Hx. pose proof (mapM_normalize_in_range r x) as Hm.
    destruct (mapM (np.normalize_index r) x); simpl; [|tauto].
    unfold np.sum. simpl. now rewrite flat_map_nil.
Qed.

End KernelValues.


(** Tokens 0 and 1 of a two-letter alphabet, written -2 and -1. *)
Lemma evaluate_kernel_negative_tokens_witness :
  DiscreteSequenceKernel.evaluate_kernel Demo.asymmetric [-2; -1]%Z [-1]%Z
  = DiscreteSequenceKernel.evaluate_kernel Demo.asymmetric [0; 1]%Z [1]%Z.
Proof.
  apply (@evaluate_kernel_negative_tokens float float64 Demo.asymmetric 2 2
           [0; 1]%Z [1]%Z eq_refl).
  - repeat constructor; lia.
  - repeat constructor; lia.
Defined.

(** A sequence and its reverse. *)
Lemma evaluate_kernel_ignores_order_witness :
  DiscreteSequenceKernel.evaluate_kernel Demo.symmetric_int [0; 1; 1]%Z [1; 0]%Z
  = DiscreteSequenceKernel.evaluate_kernel Demo.symmetric_int
      [1; 1; 0]%Z [0; 1]%Z.
Proof.
  apply (@evaluate_kernel_ignores_order Z int64 int64_exact
           Demo.symmetric_int 2 2 [0; 1; 1]%Z [1; 1; 0]%Z [1; 0]%Z [0; 1]%Z
           eq_refl eq_refl).
  - apply (Permutation_rev [0; 1; 1]%Z).
  - apply (Permutation_rev [1; 0]%Z).
Defined.

Lemma evaluate_kernel_empty_witness :
  DiscreteSequenceKernel.evaluate_kernel Demo.asymmetric [] [1; -2]%Z
  = Ok 0%float /\
  DiscreteSequenceKernel.evaluate_kernel Demo.asymmetric [0; 1]%Z []
  = Ok 0%float.
Proof.
  destruct (@evaluate_kernel_empty float float64 Demo.asymmetric 2 2
              [0; 1]%Z [1; -2]%Z eq_refl) as [Hl Hr].
  split; [apply Hl | apply Hr]; repeat constructor; lia.
Defined.

(* ================================================================== *)
(** * DiscreteSequenceKernel: batches *)
(* ================================================================== *)

Lemma length_concat_rows : forall (T : Type) (c : nat) (rows : list (list T)),
    Forall (fun row => length row = c) rows ->
    length (concat rows) = length rows * c.
Proof.
  intros T c rows Hall. induction Hall as [|row rows Hr _ IH]; simpl.
  - reflexivity.
  - rewrite length_app, IH, Hr. reflexivity.
Qed.

Lemma get2_normalized : forall (T : Type) (K : np.ndarray T) n m i j i' j',
    np.shape K = [n; m] ->
    np.normalize_index n i = Ok i' ->
    np.normalize_index m j = Ok j' ->
    np.get2 K i j = np.get2 K (Z.of_nat i') (Z.of_nat j').
Proof.
  intros T K n m i j i' j' Hs Hi Hj. unfold np.get2. rewrite Hs, Hi, Hj.
  rewrite (normalize_index_of_nat (normalize_index_lt _ _ Hi)).
  rewrite (normalize_index_of_nat (normalize_index_lt _ _ Hj)).
  reflexivity.
Qed.

Lemma get2_out_of_range : forall (T : Type) (K : np.ndarray T) n m i j,
    np.shape K = [n; m] ->
    np.normalize_index n i = Raise IndexError \/
    np.normalize_index m j = Raise IndexError ->
    np.get2 K i j = Raise IndexError.
Proof.
  intros T K n m i j Hs Hor. unfold np.get2. rewrite Hs.
  destruct (normalize_index_cases n i) as [Ei|[i' [_ Ei]]]; rewrite Ei;
    simpl; [reflexivity|].
  destruct Hor as [Hi|Hj]; [congruence|]. now rewrite Hj.
Qed.

Section Batches.

Import DiscreteSequenceKernel.
Context {A : Type} `{Scalar A}.

(** The array [__call__] returns, for one batch or two. *)
Lemma call_pairs :
  forall (self : t A) X Y K eval_gradient,
    __call__ self X Y eval_gradient = Ok K ->
    let Ys := match Y with None => X | Some Y' => Y' end in
    (X = [] /\ K = {| np.shape := [0]; np.data := [] |}) \/
    (X <> [] /\
     np.shape K = [length X; length Ys] /\
     np.well_formed K /\
     forall i j, i < length X -> j < length Ys ->
       exists v,
         evaluate_kernel self (nth i X []) (nth j Ys []) = Ok v /\
         np.get2 K (Z.of_nat i) (Z.of_nat j) = Ok v).
Proof.
  intros self X Y K eg E Ys. unfold __call__ in E. fold Ys in E.
  destruct (mapM (fun x => mapM (fun y => evaluate_kernel self x y) Ys) X)
    as [rows|] eqn:Erows; simpl in E; inversion E; subst K; clear E.
  pose proof (mapM_length _ _ Erows) as Hlen.
  assert (Hrow : Forall (fun row => length row = length Ys) rows).
  { eapply mapM_Forall; [|exact Erows].
    intros x row Hx. simpl in Hx. now apply mapM_length in Hx. }
  destruct rows as [|r0 rows'].
  - left. destruct X; [split; reflexivity | discriminate].
  - right. set (rows := r0 :: rows') in *.
    assert (Hshape : np.shape (np.array2 rows) = [length X; length Ys]).
    { unfold np.array2. subst rows. simpl np.shape.
      inversion Hrow; subst. simpl in Hlen. congruence. }
    split; [intro HX; subst X; discriminate|].
    split; [exact Hshape|]. split.
    + unfold np.well_formed. rewrite Hshape.
      change (np.data (np.array2 rows)) with (concat rows).
      rewrite (length_concat_rows Hrow), Hlen. simpl. lia.
    + intros i j Hi Hj.
      destruct (nth_error X i) as [xi|] eqn:Exi;
        [|apply nth_error_None in Exi; lia].
      destruct (nth_error Ys j) as [yj|] eqn:Eyj;
        [|apply nth_error_None in Eyj; lia].
      destruct (mapM_nth_error _ _ _ Erows Exi) as [row [Hrowi Hnrow]].
      simpl in Hrowi.
      destruct (mapM_nth_error _ _ _ Hrowi Eyj) as [v [Hv Hnv]].
      exists v. split.
      * rewrite (nth_error_nth _ _ [] Exi), (nth_error_nth _ _ [] Eyj).
        exact Hv.
      * unfold np.get2. rewrite Hshape.
        rewrite (normalize_index_of_nat Hi), (normalize_index_of_nat Hj).
        cbv beta iota delta [Py.bind].
        change (np.data (np.array2 rows)) with (concat rows).
        rewrite <- (map_id rows), <- flat_map_concat_map.
        rewrite (@nth_error_flat_map_rows _ _ (fun r => r) (length Ys)
                   rows i j []) by (auto; lia).
        rewrite (nth_error_nth _ _ [] Hnrow), Hnv. reflexivity.
Qed.

(** X6.  [__call__(X, Y)] (with [Y] standing for [X] when omitted)
    returns whenever every pair of sequences can be evaluated.  For a
    non-empty [X] the result is a well-formed [len(X)] by [len(Y)]
    matrix whose entry [i][j] is [evaluate_kernel(X[i], Y[j])]; for an
    empty [X] it is the empty 1-d array, whatever [Y] holds. *)
Theorem call_is_pairwise :
  forall (self : t A) X Y eval_gradient,
    let Ys := match Y with None => X | Some Y' => Y' end in
    (Forall (fun x =>
               Forall (fun y => exists v, evaluate_kernel self x y = Ok v) Ys)
            X ->
     exists K, __call__ self X Y eval_gradient = Ok K) /\
    (forall K,
        __call__ self X Y eval_gradient = Ok K ->
        match X with
        | [] => K = {| np.shape := [0]; np.data := [] |}
        | _ :: _ =>
            np.shape K = [length X; length Ys] /\
            np.well_formed K /\
            forall i j, i < length X -> j < length Ys ->
              exists v,
                evaluate_kernel self (nth i X []) (nth j Ys []) = Ok v /\
                np.get2 K (Z.of_nat i) (Z.of_nat j) = Ok v
        end).
Proof.
  intros self X Y eg Ys. split.
  - intros Hall. unfold __call__. fold Ys.
    assert (Hrows : Forall (fun x =>
              exists row, mapM (fun y => evaluate_kernel self x y) Ys = Ok row) X).
    { eapply Forall_impl; [|exact Hall]. intros x Hx. now apply mapM_total. }
    destruct (mapM_total _ Hrows) as [rows Hr]. rewrite Hr. simpl. eauto.
  - intros K E.
    destruct (call_pairs self X Y eg E) as [[-> ->]|[HX Hrest]];
      [reflexivity|].
    destruct X; [contradiction | exact Hrest].
Qed.

(** X7.  Whenever the Gram matrix [K(X)] of a batch can be built, so can
    [diag(X)], and it is the diagonal of [K(X)]: [diag(X)[i]] and
    [K(X)[i][i]] agree for every index [i], failing alike when [i] is
    out of range. *)
Theorem diag_is_gram_diagonal :
  forall (self : t A) X K eval_gradient,
    __call__ self X None eval_gradient = Ok K ->
    exists D,
      diag self X = Ok D /\
      forall i : Z, np.get1 D i = np.get2 K i i.
Proof.
  intros self X K eg E.
  destruct (call_pairs self X None eg E) as [[-> ->]|[HX [Hs [_ Hent]]]].
  - exists {| np.shape := [0]; np.data := [] |}. split; [reflexivity|].
    intros i. unfold np.get1, np.get2. simpl.
    destruct (normalize_index_cases 0 i) as [Ei|[k [Hk _]]]; [|lia].
    now rewrite Ei.
  - simpl in Hs, Hent.
    assert (Hall : Forall (fun x => exists v, evaluate_kernel self x x = Ok v) X).
    { apply Forall_forall. intros x Hx.
      destruct (In_nth _ _ [] Hx) as [i [Hi Hnth]].
      destruct (Hent i i Hi Hi) as [v [Hv _]]. rewrite Hnth in Hv. eauto. }
    destruct (mapM_total _ Hall) as [vs Hvs].
    exists (np.array1 vs). split; [unfold diag; now rewrite Hvs|].
    pose proof (mapM_length _ _ Hvs) as Hlen.
    intros i.
    destruct (normalize_index_cases (length X) i) as [Ei|[i' [Hi Ei]]].
    + rewrite (get2_out_of_range K i i Hs (or_introl Ei)).
      unfold np.get1, np.array1. simpl. rewrite Hlen, Ei. reflexivity.
    + rewrite (get2_normalized K i i Hs Ei Ei).
      destruct (Hent i' i' Hi Hi) as [v [Hv ->]].
      unfold np.get1, np.array1. simpl. rewrite Hlen, Ei. simpl.
      destruct (nth_error X i') as [xi|] eqn:Exi;
        [|apply nth_error_None in Exi; lia].
      destruct (mapM_nth_error _ _ _ Hvs Exi) as [v' [Hv' ->]].
      rewrite (nth_error_nth _ _ [] Exi) in Hv. congruence.
Qed.

(** X8.  Over a symmetric kernel matrix whose sums are exact, the
    matrix of one batch against another is the transpose of the matrix
    taken the other way round: [K(X, Y)[i][j]] and [K(Y, X)[j][i]]
    agree for all [i], [j], failing alike out of range. *)
Theorem call_transposes :
  ExactAdd A ->
  forall (self : t A) X Y K K' eval_gradient,
    symmetric (kernel_matrix self) ->
    __call__ self X (Some Y) eval_gradient = Ok K ->
    __call__ self Y (Some X) eval_gradient = Ok K' ->
    forall i j : Z, np.get2 K i j = np.get2 K' j i.
Proof.
  intros HE self X Y K K' eg Hsym E E' i j.
  assert (Hnone : forall (K0 : np.ndarray A) a b,
             K0 = {| np.shape := [0]; np.data := [] |} ->
             np.get2 K0 a b = Raise IndexError)
    by (intros K0 a b ->; reflexivity).
  assert (Hzero : forall a, np.normalize_index 0 a = Raise IndexError).
  { intros a. destruct (normalize_index_cases 0 a) as [Ea|[k [Hk _]]];
      [exact Ea | lia]. }
  destruct (call_pairs self X (Some Y) eg E) as [[HX HK]|[HX [Hs [_ Hent]]]];
    destruct (call_pairs self Y (Some X) eg E')
      as [[HY HK']|[HY [Hs' [_ Hent']]]]; simpl in *.
  - now rewrite (Hnone K i j HK), (Hnone K' j i HK').
  - rewrite (Hnone K i j HK). subst X. simpl in Hs'.
    symmetry. apply (get2_out_of_range K' j i Hs'). right. apply Hzero.
  - rewrite (Hnone K' j i HK'). subst Y. simpl in Hs.
    apply (get2_out_of_range K i j Hs). right. apply Hzero.
  - destruct (normalize_index_cases (length X) i) as [Ei|[i' [Hi Ei]]].
    { rewrite (get2_out_of_range K i j Hs (or_introl Ei)).
      symmetry. apply (get2_out_of_range K' j i Hs'). now right. }
    destruct (normalize_index_cases (length Y) j) as [Ej|[j' [Hj Ej]]].
    { rewrite (get2_out_of_range K' j i Hs' (or_introl Ej)).
      apply (get2_out_of_range K i j Hs). now right. }
    rewrite (get2_normalized K i j Hs Ei Ej).
    rewrite (get2_normalized K' j i Hs' Ej Ei).
    destruct (Hent i' j' Hi Hj) as [v [Hv ->]].
    destruct (Hent' j' i' Hj Hi) as [v' [Hv' ->]].
    f_equal. exact (evaluate_kernel_comm HE self _ _ Hsym Hv Hv').
Qed.

End Batches.

(** Two sequences against three. *)
Lemma call_is_pairwise_witness :
  exists K,
    DiscreteSequenceKernel.__call__ Demo.symmetric_int
      [[0; 1]; [1]]%Z (Some [[0]; [0; 0]; [1]]%Z) false = Ok K /\
    np.shape K = [2; 3] /\
    exists v,
      DiscreteSequenceKernel.evaluate_kernel Demo.symmetric_int [1]%Z [0; 0]%Z
      = Ok v /\ np.get2 K 1 1 = Ok v.
Proof.
  destruct (@call_is_pairwise Z int64 Demo.symmetric_int
              [[0; 1]; [1]]%Z (Some [[0]; [0; 0]; [1]]%Z) false)
    as [Htotal Hentries].
  destruct Htotal as [K HK].
  - repeat constructor; eexists; vm_compute; reflexivity.
  - exists K. split; [exact HK|].
    destruct (Hentries K HK) as [Hs [_ He]].
    split; [exact Hs|]. exact (He 1 1 ltac:(simpl; lia) ltac:(simpl; lia)).
Defined.

Lemma diag_is_gram_diagonal_witness :
  exists K D,
    DiscreteSequenceKernel.__call__ Demo.symmetric_int [[0; 1]; [1]]%Z None false
    = Ok K /\
    DiscreteSequenceKernel.diag Demo.symmetric_int [[0; 1]; [1]]%Z = Ok D /\
    np.get1 D (-1) = np.get2 K (-1) (-1).
Proof.
  destruct (DiscreteSequenceKernel.__call__ Demo.symmetric_int
              [[0; 1]; [1]]%Z None false) as [K|] eqn:E;
    [|vm_compute in E; discriminate].
  destruct (@diag_is_gram_diagonal Z int64 Demo.symmetric_int
              [[0; 1]; [1]]%Z K false E) as [D [HD Hdiag]].
  exists K, D. split; [reflexivity|]. split; [exact HD | apply Hdiag].
Defined.

Lemma call_transposes_witness :
  exists K K',
    DiscreteSequenceKernel.__call__ Demo.symmetric_int
      [[0; 1]; [1]]%Z (Some [[0]; [0; 0]; [1]]%Z) false = Ok K /\
    DiscreteSequenceKernel.__call__ Demo.symmetric_int
      [[0]; [0; 0]; [1]]%Z (Some [[0; 1]; [1]]%Z) false = Ok K' /\
    np.get2 K 0 2 = np.get2 K' 2 0.
Proof.
  eexists. eexists. split; [vm_compute; reflexivity|].
  split; [vm_compute; reflexivity|].
  apply (@call_transposes Z int64 int64_exact Demo.symmetric_int
           [[0; 1]; [1]]%Z [[0]; [0; 0]; [1]]%Z _ _ false).
  - exact symmetric_int_is_symmetric.
  - vm_compute; reflexivity.
  - vm_compute; reflexivity.
Defined.

(* ================================================================== *)
(** * The default kernel, as a kernel *)
(* ================================================================== *)

Section DefaultKernelUse.

Import GaussianProcessOracle.

Lemma default_kernel_matrix_well_formed :
  forall n, np.well_formed (default_kernel_matrix n).
Proof.
  intros n. unfold np.well_formed, default_kernel_matrix.
  cbn [np.data np.shape np.plus np.scale np.ones np.eye].
  rewrite length_map, length_combine, !length_map, repeat_length.
  rewrite (length_flat_map _ (seq 0 n)).
  rewrite (map_ext_in _ (fun _ => n))
    by (intros; now rewrite length_map, length_seq).
  assert (Hsum : forall l : list nat, list_sum (map (fun _ => n) l) = length l * n)
    by (induction l; simpl; lia).
  rewrite Hsum, length_seq. simpl. lia.
Qed.

(** X9.  The default kernel matrix of a discrete dataset is a
    well-formed square matrix that is symmetric, for every number of
    classes. *)
Theorem default_kernel_matrix_symmetric :
  forall n, symmetric (default_kernel_matrix n).
Proof.
  intros n. exists n. split; [reflexivity|].
  split; [apply default_kernel_matrix_well_formed|].
  intros a b.
  destruct (normalize_index_cases n a) as [Ea|[a' [Ha Ea]]].
  - rewrite (get2_out_of_range (default_kernel_matrix n) a b
               (default_kernel_matrix_shape n) (or_introl Ea)).
    symmetry.
    apply (get2_out_of_range (default_kernel_matrix n) b a
             (default_kernel_matrix_shape n)). now right.
  - destruct (normalize_index_cases n b) as [Eb|[b' [Hb Eb]]].
    + rewrite (get2_out_of_range (default_kernel_matrix n) b a
                 (default_kernel_matrix_shape n) (or_introl Eb)).
      apply (get2_out_of_range (default_kernel_matrix n) a b
               (default_kernel_matrix_shape n)). now right.
    + rewrite (get2_normalized (default_kernel_matrix n) a b
                 (default_kernel_matrix_shape n) Ea Eb).
      rewrite (get2_normalized (default_kernel_matrix n) b a
                 (default_kernel_matrix_shape n) Eb Ea).
      rewrite !default_kernel_matrix_entry by assumption.
      now rewrite (Nat.eqb_sym a' b').
Qed.

(** X10.  Under the default kernel of an alphabet of [n] classes, two
    single-token sequences have similarity exactly 1.0 when the tokens
    coincide and exactly 0.1 when they differ. *)
Theorem default_kernel_on_single_tokens :
  forall n a b,
    a < n -> b < n ->
    DiscreteSequenceKernel.evaluate_kernel
      (DiscreteSequenceKernel.__init__ (default_kernel_matrix n))
      [Z.of_nat a] [Z.of_nat b]
    = Ok (if Nat.eqb a b then 1%float else 0.1%float).
Proof.
  intros n a b Ha Hb.
  set (self := DiscreteSequenceKernel.__init__ (default_kernel_matrix n)).
  pose proof (@evaluate_kernel_outcome float float64 self n n
                [Z.of_nat a] [Z.of_nat b] eq_refl) as Ho.
  destruct (DiscreteSequenceKernel.evaluate_kernel self [Z.of_nat a] [Z.of_nat b])
    as [v|e] eqn:E.
  - destruct (@evaluate_kernel_2d float float64 self n n _ _ v eq_refl
                (default_kernel_matrix_well_formed n) E)
      as [xs [ys [Ex [Ey ->]]]].
    simpl in Ex, Ey.
    rewrite (normalize_index_of_nat Ha) in Ex.
    rewrite (normalize_index_of_nat Hb) in Ey.
    simpl in Ex, Ey. inversion Ex; inversion Ey; subst xs ys.
    cbn [flat_map app]. rewrite !app_nil_r.
    rewrite chunk_chunk by exact Hb.
    pose proof (default_kernel_matrix_entry Ha Hb) as He.
    unfold np.get2 in He. rewrite default_kernel_matrix_shape in He.
    rewrite (normalize_index_of_nat Ha), (normalize_index_of_nat Hb) in He.
    cbv beta iota delta [Py.bind] in He.
    change (np.data (DiscreteSequenceKernel.kernel_matrix self))
      with (np.data (default_kernel_matrix n)).
    destruct (nth_error (np.data (default_kernel_matrix n)) (a * n + b))
      as [u|]; [|discriminate].
    inversion He; subst u. f_equal.
    destruct (Nat.eqb a b); reflexivity.
  - exfalso. apply (proj2 Ho). unfold in_range.
    split; repeat constructor; lia.
Qed.

End DefaultKernelUse.

Lemma default_kernel_on_single_tokens_witness :
  DiscreteSequenceKernel.evaluate_kernel
    (DiscreteSequenceKernel.__init__
       (GaussianProcessOracle.default_kernel_matrix 4))
    [2]%Z [2]%Z = Ok 1%float /\
  DiscreteSequenceKernel.evaluate_kernel
    (DiscreteSequenceKernel.__init__
       (GaussianProcessOracle.default_kernel_matrix 4))
    [2]%Z [3]%Z = Ok 0.1%float.
Proof.
  split.
  - exact (@default_kernel_on_single_tokens 4 2 2 ltac:(lia) ltac:(lia)).
  - exact (@default_kernel_on_single_tokens 4 2 3 ltac:(lia) ltac:(lia)).
Defined.

(* ================================================================== *)
(** * fit: the run that returns, and the runs that do not *)
(* ================================================================== *)

Lemma reshape_same_buffer : forall x sh x',
    Array.reshape x sh = Ok x' ->
    same_buffer x x' /\ np.prod sh = np.prod (Array.shape x).
Proof.
  intros [a|a] sh x' E; unfold Array.reshape, np.reshape in E;
    destruct (Nat.eqb_spec (np.prod sh) (np.prod (np.shape a))); simpl in E;
    inversion E; split; simpl; auto.
Qed.

Section FitReturns.

Import GaussianProcessOracle.
Context {sk : Sklearn}.

Lemma subsample_returns :
  forall x y max_samples w w' idx xs ys,
    subsample x y max_samples w = (w', Ok (idx, xs, ys)) ->
    exists N,
      Array.shape0 y = Ok N /\
      np_random.choice N (Z.min (Z.of_nat N) max_samples) w = (w', Ok idx) /\
      Array.take0 x idx = Ok xs /\ Array.take0 y idx = Ok ys.
Proof.
  intros x y max_samples w w' idx xs ys E.
  unfold subsample, PyM.bind, PyM.lift, PyM.ret in E.
  destruct (Array.shape0 y) as [N|e] eqn:EN; [|inversion E].
  destruct (np_random.choice N (Z.min (Z.of_nat N) max_samples) w)
    as [w1 [idx'|e]] eqn:Ec; [|inversion E].
  destruct (Array.take0 x idx') as [xs'|e] eqn:Ex; [|inversion E].
  destruct (Array.take0 y idx') as [ys'|e] eqn:Ey; inversion E; subst.
  exists N. auto.
Qed.

Lemma preprocess_returns :
  forall dataset x y w w' x2 y2,
    preprocess dataset x y w = (w', Ok (x2, y2)) ->
    exists x1,
      snd (conversion dataset x) = Ok x1 /\
      snd (normalization dataset x1) = Ok x2 /\
      normalize_y dataset y = Ok y2 /\
      _disable_transform w' = _disable_transform w /\
      rng w' = rng w /\
      calls w' = calls w ++ fst (conversion dataset x)
                         ++ fst (normalization dataset x1)
                         ++ [call_normalize_y y].
Proof.
  intros dataset x y w w' x2 y2 E.
  unfold preprocess, conversion, normalization in *.
  unfold PyM.bind, PyM.lift, PyM.ret, PyM.log in E.
  destruct (is_discrete dataset && Array.is_floating x); simpl in *.
  - destruct (to_integers dataset x) as [x1|e]; simpl in *; [|inversion E].
    exists x1. split; [reflexivity|].
    destruct (Array.is_floating x1); simpl in *.
    + destruct (normalize_x dataset x1) as [x2'|e]; simpl in *; [|inversion E].
      destruct (normalize_y dataset y) eqn:Ey; inversion E; subst; simpl.
      rewrite <- !app_assoc. auto 10.
    + destruct (normalize_y dataset y) eqn:Ey; inversion E; subst; simpl.
      rewrite <- !app_assoc. auto 10.
  - exists x. split; [reflexivity|].
    destruct (Array.is_floating x); simpl in *.
    + destruct (normalize_x dataset x) as [x2'|e]; simpl in *; [|inversion E].
      destruct (normalize_y dataset y) eqn:Ey; inversion E; subst; simpl.
      rewrite <- !app_assoc. auto 10.
    + destruct (normalize_y dataset y) eqn:Ey; inversion E; subst; simpl.
      auto 10.
Qed.

(** The fit of the regressor, whatever its outcome: [model.fit] is
    reached exactly when both reshapes succeed. *)
Lemma fit_model_outcome :
  forall model x y w w' r,
    fit_model model x y w = (w', r) ->
    _disable_transform w' = _disable_transform w /\ rng w' = rng w /\
    ((calls w' = calls w /\
      exists e, r = Raise e /\
        match Array.shape x with
        | [] => e = IndexError
        | [_] => e = TypeError
        | _ :: _ :: _ =>
            match Array.shape0 y with
            | Raise e' => e = e'
            | Ok k => e = ValueError /\ np.prod (Array.shape y) <> k
            end
        end) \/
     exists n d rest k x' y',
       Array.shape x = n :: d :: rest /\
       Array.reshape x [n; np.prod (d :: rest)] = Ok x' /\
       Array.shape0 y = Ok k /\ Array.reshape y [k] = Ok y' /\
       calls w' = calls w ++ [call_model_fit x' y'] /\
       r = model_fit model x' y').
Proof.
  intros model x y w w' r E.
  unfold fit_model, PyM.bind, PyM.lift, PyM.log in E.
  assert (Hs0 : Array.shape0 x = match Array.shape x with
                                 | [] => Raise IndexError
                                 | n :: _ => Ok n
                                 end)
    by (destruct x; reflexivity).
  destruct (Array.shape x) as [|n [|d rest]] eqn:Hx; rewrite Hs0 in E;
    simpl in E.
  - inversion E; subst. repeat split. left. split; [reflexivity|]. eauto.
  - inversion E; subst. repeat split. left. split; [reflexivity|]. eauto.
  - assert (Hre : exists x', Array.reshape x [n; d * np.prod rest] = Ok x').
    { destruct x as [a|a]; simpl in *; unfold np.reshape; rewrite Hx; simpl;
        rewrite Nat.mul_1_r, Nat.eqb_refl; simpl; eauto. }
    destruct Hre as [x' Hx']. rewrite Hx' in E.
    destruct (Array.shape0 y) as [k|e] eqn:Hk.
    2:{ inversion E; subst. repeat split. left. split; [reflexivity|]. eauto. }
    destruct (Array.reshape y [k]) as [y'|e] eqn:Hy'.
    + simpl in E. inversion E; subst. simpl. repeat split. right.
      exists n, d, rest, k, x', y'. repeat split; auto.
    + inversion E; subst. repeat split. left. split; [reflexivity|].
      exists e. split; [reflexivity|].
      destruct y as [a|a]; simpl in *; unfold np.reshape in Hy';
        simpl in Hy'; rewrite Nat.mul_1_r in Hy';
        destruct (Nat.eqb_spec k (np.prod (np.shape a))); simpl in Hy';
        inversion Hy'; split; auto.
Qed.

End FitReturns.

Section FitRuns.

Import GaussianProcessOracle.
Context {sk : Sklearn}.

(** X11.  A run of [fit] that returns has done exactly this, in this
    order: built the regressor with the selected kernel; read the
    designs and scores with the transforms disabled, whatever the flag
    was at entry; asked [np.random.choice] once for [min(N, max_samples)]
    of the [N] indices; taken the designs and the scores at the SAME
    indices; converted and normalized the designs as their dtype asks;
    normalized the scores; and called [model.fit] on the two reshaped
    arrays, whose result is what [fit] returns.  No other call is made,
    and the random state is consumed by the one draw only. *)
Theorem fit_run_that_returns :
  forall dataset kernel max_samples kwargs w w' fitted l,
    fit dataset kernel max_samples kwargs w = (w', Ok fitted) ->
    calls_since w w' l ->
    exists model xx yy N w1 idx xs ys x1 x2 y2 x' y',
      GaussianProcessRegressor (select_kernel dataset kernel) kwargs
      = Ok model /\
      x dataset true = Ok xx /\ y dataset true = Ok yy /\
      Array.shape0 yy = Ok N /\
      np_random.choice N (Z.min (Z.of_nat N) max_samples)
        {| _disable_transform := true; rng := rng w; calls := calls w |}
      = (w1, Ok idx) /\
      rng w' = rng w1 /\
      Array.take0 xx idx = Ok xs /\ Array.take0 yy idx = Ok ys /\
      snd (conversion dataset xs) = Ok x1 /\
      snd (normalization dataset x1) = Ok x2 /\
      normalize_y dataset ys = Ok y2 /\
      (exists n rest, Array.shape0 x2 = Ok n /\ tl (Array.shape x2) = rest /\
                      Array.reshape x2 [n; np.prod rest] = Ok x') /\
      (exists k, Array.shape0 y2 = Ok k /\ Array.reshape y2 [k] = Ok y') /\
      model_fit model x' y' = Ok fitted /\
      l = call_choice N (Z.min (Z.of_nat N) max_samples)
          :: fst (conversion dataset xs) ++ fst (normalization dataset x1)
          ++ [call_normalize_y ys; call_model_fit x' y'].
Proof.
  intros dataset kernel max_samples kwargs w w' fitted l E Hl.
  fit_stages E.
  repeat match goal with
         | s : (_ * _)%type |- _ => destruct s
         end.
  match goal with
  | H : subsample _ _ _ _ = _ |- _ =>
      destruct (subsample_returns _ _ _ _ H) as [N [HN [Hc [Hxs Hys]]]]
  end.
  match goal with
  | H : preprocess _ _ _ _ = _ |- _ =>
      destruct (preprocess_returns _ _ _ _ H)
        as [x1 [Hx1 [Hx2 [Hy2 [_ [Hr2 Hc2]]]]]]
  end.
  match goal with
  | H : fit_model _ _ _ _ = _ |- _ =>
      destruct (fit_model_outcome _ _ _ _ H) as [_ [Hr3 [[_ [e [He _]]]|Hfit]]];
        [discriminate|]
  end.
  destruct Hfit as [n [d [rest [k [x' [y' [Hsx [Hx' [Hk [Hy' [Hc3 Hm]]]]]]]]]]].
  destruct (choice_spec _ _ _ Hc) as [_ [_ [_ [_ Hc1]]]].
  unfold calls_since in Hl. simpl in Hl, Hr3.
  rewrite Hc3, Hc2, Hc1 in Hl. simpl in Hl.
  rewrite <- !app_assoc in Hl. apply app_inv_head in Hl. subst l.
  do 13 eexists.
  repeat match goal with
         | |- _ /\ _ => split
         end; eauto.
  - simpl. congruence.
  - exists n, (d :: rest). rewrite Hsx. repeat split; auto.
    eapply shape0_of_shape; eauto.
Qed.

(** X12.  What the regressor is fitted on: the designs flattened to two
    axes, [(n, d1 * ... * dk)], and the scores to one, [(n',)], both
    over the buffers of the normalized arrays, element for element.
    [model.fit] is called once or not at all, and when it is called its
    outcome is the outcome of the block. *)
Theorem fit_flattens_designs_and_scores :
  forall model x y w w' r l,
    fit_model model x y w = (w', r) ->
    calls_since w w' l ->
    (l = [] /\ exists e, r = Raise e) \/
    exists x' y' n d rest k,
      l = [call_model_fit x' y'] /\
      r = model_fit model x' y' /\
      Array.shape x = n :: d :: rest /\
      Array.shape x' = [n; d * np.prod rest] /\
      same_buffer x x' /\
      Array.shape0 y = Ok k /\
      Array.shape y' = [k] /\
      same_buffer y y'.
Proof.
  intros model x y w w' r l E Hl.
  destruct (fit_model_outcome _ _ _ _ E)
    as [_ [_ [[Hc [e [He _]]]|
              [n [d [rest [k [x' [y' [Hsx [Hx' [Hk [Hy' [Hc Hm]]]]]]]]]]]]]];
    unfold calls_since in Hl; rewrite Hc in Hl.
  - left. symmetry in Hl. apply app_eq_self in Hl. eauto.
  - right. apply app_inv_head in Hl. subst l.
    destruct (reshape_shape _ _ Hx') as [Hs1 _].
    destruct (reshape_shape _ _ Hy') as [Hs2 _].
    destruct (reshape_same_buffer _ _ Hx') as [Hb1 _].
    destruct (reshape_same_buffer _ _ Hy') as [Hb2 _].
    exists x', y', n, d, rest, k. repeat split; auto.
Qed.


(** X14.  The outcome of [fit] does not depend on the dataset's
    [_disable_transform] at entry: the result, the calls made and the
    random draws are the same from either value of the flag. *)
Theorem fit_ignores_flag_at_entry :
  forall dataset kernel max_samples kwargs b1 b2 draws log,
    let run b :=
      fit dataset kernel max_samples kwargs
          {| _disable_transform := b; rng := draws; calls := log |} in
    snd (run b1) = snd (run b2) /\
    rng (fst (run b1)) = rng (fst (run b2)) /\
    calls (fst (run b1)) = calls (fst (run b2)).
Proof.
  intros dataset kernel max_samples kwargs b1 b2 draws log run.
  subst run. unfold fit, PyM.bind, PyM.lift, PyM.set_disable_transform.
  destruct (GaussianProcessRegressor (select_kernel dataset kernel) kwargs);
    simpl; auto.
Qed.

(** X15.  When [fit] raises, either the regressor could not be built and
    nothing at all was touched, or the dataset is left with its
    transforms disabled: no exception raised after the flag was set
    leaves it reset. *)
Theorem fit_failure_leaves_transform_disabled :
  forall dataset kernel max_samples kwargs w w' e,
    fit dataset kernel max_samples kwargs w = (w', Raise e) ->
    (GaussianProcessRegressor (select_kernel dataset kernel) kwargs = Raise e
     /\ w' = w)
    \/ _disable_transform w' = true.
Proof.
  intros dataset kernel max_samples kwargs w w' e E.
  exact (fit_flag _ _ _ _ _ E).
Qed.


End FitRuns.

(** Logits of three designs, all of them drawn: one conversion, no
    normalization of the designs. *)
Lemma fit_run_that_returns_witness :
  exists w' fitted l N idx xs ys x1 x' y',
    GaussianProcessOracle.fit Demo.logits None 5 tt (Demo.fresh false)
    = (w', Ok fitted) /\
    calls_since (Demo.fresh false) w' l /\
    Z.of_nat (length idx) = Z.min (Z.of_nat N) 5 /\
    (xx <- x Demo.logits true ;; Array.take0 xx idx)%result = Ok xs /\
    (yy <- y Demo.logits true ;; Array.take0 yy idx)%result = Ok ys /\
    model_fit None x' y' = Ok fitted /\
    l = call_choice N (Z.min (Z.of_nat N) 5)
        :: fst (conversion Demo.logits xs) ++ fst (normalization Demo.logits x1)
        ++ [call_normalize_y ys; call_model_fit x' y'].
Proof.
  destruct (@GaussianProcessOracle.fit Demo.sklearn Demo.logits None 5 tt
              (Demo.fresh false)) as [w' r] eqn:E.
  pose proof E as E'. vm_compute in E'. inversion E'; subst w' r; clear E'.
  destruct (@fit_run_that_returns Demo.sklearn _ _ _ _ _ _ _ _ E eq_refl)
    as [model [xx [yy [N [w1 [idx [xs [ys [x1 [x2 [y2 [x' [y'
         [Hm [Hx [Hy [HN [Hc [_ [Hxs [Hys [_ [_ [_ [_ [_ [Hfit Hl]]]]]]]]]]]]]]
       ]]]]]]]]]]]]].
  destruct (choice_spec _ _ _ Hc) as [Hlen _].
  eexists. eexists. eexists. exists N, idx, xs, ys, x1, x', y'.
  split; [reflexivity|]. split; [reflexivity|]. split; [exact Hlen|].
  split; [rewrite Hx; exact Hxs|]. split; [rewrite Hy; exact Hys|].
  split; [|exact Hl].
  simpl in Hm. inversion Hm; subst model. exact Hfit.
Defined.

(** Two designs of two tokens over two classes, given as 2 x 2 x 2
    logits, and their scores as a column. *)
Lemma fit_flattens_designs_and_scores_witness :
  let x := FloatArray {| np.shape := [2; 2; 2];
                         np.data := [5; 0; 0; 5; 0; 5; 5; 0]%float |} in
  let y := FloatArray {| np.shape := [2; 1]; np.data := [1; 2]%float |} in
  exists w' r x' y',
    GaussianProcessOracle.fit_model None x y (Demo.fresh true) = (w', r) /\
    calls_since (Demo.fresh true) w' [call_model_fit x' y'] /\
    Array.shape x' = [2; 4] /\ same_buffer x x' /\
    Array.shape y' = [2] /\ same_buffer y y'.
Proof.
  intros x y.
  destruct (@GaussianProcessOracle.fit_model Demo.sklearn None x y
              (Demo.fresh true)) as [w' r] eqn:E.
  pose proof E as E'. vm_compute in E'. inversion E'; subst w' r; clear E'.
  destruct (@fit_flattens_designs_and_scores Demo.sklearn _ _ _ _ _ _ _
              E eq_refl)
    as [[Hnil _]|[x' [y' [n [d [rest [k [Hl [_ [Hsx [Hsx' [Hbx [Hk [Hsy' Hby
         ]]]]]]]]]]]]]]; [discriminate|].
  inversion Hl; subst x' y'.
  eexists. eexists. eexists. eexists.
  split; [reflexivity|]. split; [reflexivity|].
  inversion Hsx; subst n d rest. inversion Hk; subst k.
  repeat split; assumption.
Defined.


(** A negative sample size, on a dataset whose transforms were enabled. *)
Lemma fit_failure_leaves_transform_disabled_witness :
  exists w',
    GaussianProcessOracle.fit Demo.tokens None (-1) tt (Demo.fresh false)
    = (w', Raise ValueError) /\
    _disable_transform w' = true.
Proof.
  destruct (@GaussianProcessOracle.fit Demo.sklearn Demo.tokens None (-1) tt
              (Demo.fresh false)) as [w' r] eqn:E.
  pose proof E as E'. vm_compute in E'. inversion E'; subst w' r; clear E'.
  eexists. split; [reflexivity|].
  destruct (@fit_failure_leaves_transform_disabled Demo.sklearn _ _ _ _ _ _ _ E)
    as [[H _]|H]; [discriminate | exact H].
Defined.


(* ================================================================== *)
(** * fit: a sample of everything *)
(* ================================================================== *)

Section WholeDataset.

Import GaussianProcessOracle.
Context {sk : Sklearn}.

(** X17.  With [max_samples] at least the number [N] of examples, the
    sub-sample is the whole dataset in a shuffled order: the indices
    drawn are a permutation of [0 .. N-1], so every example is used
    exactly once. *)
Theorem subsample_of_everything :
  forall x y max_samples N w w' idx xs ys,
    Array.shape0 y = Ok N ->
    (Z.of_nat N <= max_samples)%Z ->
    subsample x y max_samples w = (w', Ok (idx, xs, ys)) ->
    Permutation idx (map Z.of_nat (seq 0 N)).
Proof.
  intros x y max_samples N w w' idx xs ys HN Hmax E.
  destruct (subsample_spec _ _ _ _ E) as [_ [l [_ [_ Hres]]]].
  destruct (Hres idx xs ys eq_refl) as [N' [HN' [Hlen [Hnd [Hrange _]]]]].
  rewrite HN in HN'. inversion HN'; subst N'.
  rewrite Z.min_l in Hlen by lia.
  apply NoDup_Permutation_bis; [exact Hnd | |].
  - rewrite length_map, length_seq. lia.
  - intros i Hi. rewrite Forall_forall in Hrange.
    specialize (Hrange i Hi).
    replace i with (Z.of_nat (Z.to_nat i)) by lia.
    apply in_map, in_seq. lia.
Qed.

End WholeDataset.

Lemma subsample_of_everything_witness :
  let x := IntArray {| np.shape := [3; 2];
                       np.data := [0; 1; 1; 0; 1; 1]%Z |} in
  let y := FloatArray {| np.shape := [3; 1]; np.data := [1; 2; 3]%float |} in
  exists w' idx xs ys,
    GaussianProcessOracle.subsample x y 1000 (Demo.fresh true)
    = (w', Ok (idx, xs, ys)) /\
    Permutation idx [0; 1; 2]%Z.
Proof.
  intros x y.
  eexists. eexists. eexists. eexists.
  split; [vm_compute; reflexivity|].
  eapply (@subsample_of_everything x y 1000%Z 3 (Demo.fresh true)).
  - reflexivity.
  - lia.
  - vm_compute. reflexivity.
Defined.

(* ================================================================== *)
(** * Persistence: several saves, failed saves, missing members *)
(* ================================================================== *)

Lemma lookup_app : forall l1 l2 name,
    zipfile.lookup (l1 ++ l2) name =
    match zipfile.lookup l2 name with
    | Some b => Some b
    | None => zipfile.lookup l1 name
    end.
Proof.
  intros l1 l2 name. induction l1 as [|[n b] l1 IH]; simpl.
  - now destruct (zipfile.lookup l2 name).
  - rewrite IH. now destruct (zipfile.lookup l2 name).
Qed.

Lemma lookup_absent : forall l name,
    (forall b, ~ In (name, b) l) -> zipfile.lookup l name = None.
Proof.
  intros l name. induction l as [|[n b] l IH]; simpl; intros H.
  - reflexivity.
  - rewrite IH by (intros b' Hb'; apply (H b'); now right).
    destruct (String.eqb_spec n name) as [->|]; [|reflexivity].
    elim (H b). now left.
Qed.

Section PersistenceRuns.

Import GaussianProcessOracle.
Context {sk : Sklearn} {pk : Pickle Model}.

(** X18.  Saving twice into the same archive stores two members of the
    same name, after everything the archive held; loading gives the
    model saved last. *)
Theorem save_twice_load_latest :
  forall (m1 m2 : Model) (z z1 z2 : ZipFile),
    save_model_to_zip m1 z = (z1, Ok tt) ->
    save_model_to_zip m2 z1 = (z2, Ok tt) ->
    load_model_from_zip z2 = Ok m2 /\
    exists b1 b2,
      pkl_dump m1 = (b1, Ok tt) /\ pkl_dump m2 = (b2, Ok tt) /\
      filelist z2 = filelist z ++ [("gaussian_process.pkl"%string, b1);
                                   ("gaussian_process.pkl"%string, b2)].
Proof.
  intros m1 m2 z z1 z2 E1 E2. unfold save_model_to_zip in *.
  destruct (zipfile.writable z); [|discriminate].
  destruct (pkl_dump m1) as [b1 r1] eqn:D1. inversion E1; subst z1 r1; clear E1.
  destruct (zipfile.writable (zipfile.write z member b1)); [|discriminate].
  destruct (pkl_dump m2) as [b2 r2] eqn:D2. inversion E2; subst z2 r2; clear E2.
  split.
  - unfold load_model_from_zip, zipfile.read.
    rewrite getinfo_write, String.eqb_refl. simpl.
    now apply pkl_roundtrip.
  - exists b1, b2. split; [reflexivity|]. split; [reflexivity|].
    simpl. now rewrite <- app_assoc.
Qed.

(** X19.  [load_model_from_zip] looks at one member only, the last one
    named [gaussian_process.pkl]: without such a member it raises
    KeyError, and otherwise its outcome is pickle's on the bytes of
    that member, whatever else the archive holds. *)
Theorem load_reads_latest_member :
  forall z : ZipFile,
    ((forall b, ~ In ("gaussian_process.pkl"%string, b) (filelist z)) ->
     load_model_from_zip z = Raise KeyError) /\
    (forall before b after,
        filelist z = before ++ ("gaussian_process.pkl"%string, b) :: after ->
        (forall b', ~ In ("gaussian_process.pkl"%string, b') after) ->
        load_model_from_zip z = pkl_load b).
Proof.
  intros z. unfold load_model_from_zip, zipfile.read, zipfile.getinfo, member.
  split.
  - intros H. now rewrite (@lookup_absent _ _ H).
  - intros before b after Hz H. rewrite Hz, lookup_app. simpl.
    rewrite (@lookup_absent _ _ H). reflexivity.
Qed.

(** X20.  How [save_model_to_zip] fails.  An archive opened for reading
    refuses with ValueError and is left as it was.  When pickle raises
    part-way, its exception passes through, but the member is still
    added, holding the bytes written so far: a later load reads those
    bytes, not the model the archive held before. *)
Theorem save_failure :
  forall (model : Model) (z z' : ZipFile) e,
    save_model_to_zip model z = (z', Raise e) ->
    (zipfile.writable z = false /\ e = ValueError /\ z' = z) \/
    (zipfile.writable z = true /\
     exists written,
       pkl_dump model = (written, Raise e) /\
       filelist z' = filelist z ++ [("gaussian_process.pkl"%string, written)] /\
       load_model_from_zip z' = pkl_load written).
Proof.
  intros model z z' e E. unfold save_model_to_zip in E.
  destruct (zipfile.writable z).
  - right. split; [reflexivity|].
    destruct (pkl_dump model) as [written r] eqn:D.
    inversion E; subst z' r; clear E.
    exists written. split; [reflexivity|]. split; [reflexivity|].
    unfold load_model_from_zip, zipfile.read.
    now rewrite getinfo_write, String.eqb_refl.
  - left. inversion E; subst. auto.
Qed.

End PersistenceRuns.

(** Two models saved on top of the one the archive held. *)
Lemma save_twice_load_latest_witness :
  exists z1 z2,
    @GaussianProcessOracle.save_model_to_zip Demo.counting Demo.unary_pickle
      3 Demo.archive = (z1, Ok tt) /\
    @GaussianProcessOracle.save_model_to_zip Demo.counting Demo.unary_pickle
      2 z1 = (z2, Ok tt) /\
    @GaussianProcessOracle.load_model_from_zip Demo.counting Demo.unary_pickle
      z2 = Ok 2 /\
    length (filelist z2) = 4.
Proof.
  eexists. eexists.
  split; [vm_compute; reflexivity|]. split; [vm_compute; reflexivity|].
  destruct (@save_twice_load_latest Demo.counting Demo.unary_pickle
              3 2 Demo.archive _ _ eq_refl eq_refl)
    as [Hload [b1 [b2 [_ [_ Hlist]]]]].
  split; [exact Hload|]. reflexivity.
Defined.

(** An archive without a model, and one with a model between two other
    members. *)
Lemma load_reads_latest_member_witness :
  @GaussianProcessOracle.load_model_from_zip Demo.counting Demo.unary_pickle
    Demo.readonly = Raise KeyError /\
  @GaussianProcessOracle.load_model_from_zip Demo.counting Demo.unary_pickle
    {| mode := mode_r;
       filelist := [("README"%string, [Byte.x52]);
                    ("gaussian_process.pkl"%string, [Byte.x01; Byte.x01]);
                    ("LICENSE"%string, [])] |}
  = Ok 2.
Proof.
  split.
  - apply (@load_reads_latest_member Demo.counting Demo.unary_pickle
             Demo.readonly).
    intros b [H|[]]. discriminate.
  - apply (proj2 (@load_reads_latest_member Demo.counting Demo.unary_pickle
                    {| mode := mode_r;
                       filelist :=
                         [("README"%string, [Byte.x52]);
                          ("gaussian_process.pkl"%string, [Byte.x01; Byte.x01]);
                          ("LICENSE"%string, [])] |})
             [("README"%string, [Byte.x52])] [Byte.x01; Byte.x01]
             [("LICENSE"%string, [])] eq_refl).
    intros b [H|[]]. discriminate.
Defined.

(** A model of five examples does not fit the short pickle: the archive,
    which held a model of one example, now loads as a model of two.
    And an archive opened for reading is not written to. *)
Lemma save_failure_witness :
  (exists z',
      @GaussianProcessOracle.save_model_to_zip Demo.counting Demo.short_pickle
        5 Demo.archive = (z', Raise (LibraryError "pickle")) /\
      @GaussianProcessOracle.load_model_from_zip Demo.counting Demo.short_pickle
        Demo.archive = Ok 1 /\
      @GaussianProcessOracle.load_model_from_zip Demo.counting Demo.short_pickle
        z' = Ok 2) /\
  @GaussianProcessOracle.save_model_to_zip Demo.counting Demo.short_pickle
    1 Demo.readonly = (Demo.readonly, Raise ValueError).
Proof.
  split.
  - destruct (@GaussianProcessOracle.save_model_to_zip Demo.counting
                Demo.short_pickle 5 Demo.archive) as [z' r] eqn:E.
    pose proof E as E'. vm_compute in E'. inversion E'; subst z' r; clear E'.
    eexists. split; [reflexivity|]. split; [reflexivity|].
    destruct (@save_failure Demo.counting Demo.short_pickle 5 Demo.archive
                _ _ E) as [[H _]|[_ [written [Hd [_ Hl]]]]];
      [discriminate|].
    rewrite Hl. vm_compute in Hd. inversion Hd; subst written. reflexivity.
  - destruct (@GaussianProcessOracle.save_model_to_zip Demo.counting
                Demo.short_pickle 1 Demo.readonly) as [z' r] eqn:E.
    pose proof E as E'. vm_compute in E'. inversion E'; subst r; clear E'.
    destruct (@save_failure Demo.counting Demo.short_pickle 1 Demo.readonly
                _ _ E) as [[_ [_ ->]]|[H _]]; [reflexivity | discriminate].
Defined.

(* ================================================================== *)
(** * Scoring: the values and the failures *)
(* ================================================================== *)

Section ScoringRuns.

Import GaussianProcessOracle.
Context {sk : Sklearn}.

(** X21.  The scores [protected_score] returns are the model's
    predictions, element for element and of the same dtype: whatever the
    shape [(d0, ...)] of what the model predicts, the result has shape
    [(d0, 1, ...)] over the same buffer. *)
Theorem protected_score_keeps_predictions :
  forall (self : t) (x column : array),
    protected_score self x = Ok column ->
    exists scores d0 rest,
      model_predict (model self) x = Ok scores /\
      Array.shape scores = d0 :: rest /\
      Array.shape column = d0 :: 1 :: rest /\
      same_buffer scores column.
Proof.
  intros self x column E. unfold protected_score in E.
  destruct (model_predict (model self) x) as [scores|] eqn:Hp;
    simpl in E; [|discriminate].
  exists scores.
  destruct scores as [a|a]; simpl in *; unfold np.newaxis1 in E;
    destruct (np.shape a) as [|d0 rest] eqn:Hs; simpl in E;
    inversion E; subst; exists d0, rest; simpl; auto.
Qed.

(** X22.  [protected_score] raises in two cases only: the model's
    [predict] raised, and its exception passes through unchanged; or
    [predict] returned an array without any axis, which cannot be
    indexed (IndexError). *)
Theorem protected_score_failures :
  forall (self : t) (x : array) e,
    protected_score self x = Raise e <->
    model_predict (model self) x = Raise e \/
    (exists scores,
        model_predict (model self) x = Ok scores /\
        Array.shape scores = [] /\ e = IndexError).
Proof.
  intros self x e. unfold protected_score.
  destruct (model_predict (model self) x) as [scores|e'] eqn:Hp; simpl.
  - destruct scores as [a|a]; simpl; unfold np.newaxis1;
      destruct (np.shape a) as [|d0 rest] eqn:Hs; simpl; split;
      try discriminate; intros H.
    all: try solve [inversion H; subst; right; eexists; simpl; eauto].
    all: try solve [destruct H as [H|[s [H1 [H2 H3]]]];
                    [discriminate | inversion H1; subst; simpl in *;
                                    congruence]].
  - split; [intros H; now left | intros [H|[s [H _]]]; [exact H|discriminate]].
Qed.

End ScoringRuns.

Lemma protected_score_keeps_predictions_witness :
  let self := {| GaussianProcessOracle.dataset := Demo.tokens;
                 GaussianProcessOracle.model := None |} in
  let x := IntArray {| np.shape := [2; 2]; np.data := [0; 1; 1; 0]%Z |} in
  exists column scores,
    GaussianProcessOracle.protected_score self x = Ok column /\
    model_predict None x = Ok scores /\
    Array.shape column = [2; 1] /\
    same_buffer scores column.
Proof.
  intros self x.
  destruct (GaussianProcessOracle.protected_score self x) as [column|] eqn:E;
    [|vm_compute in E; discriminate].
  destruct (@protected_score_keeps_predictions Demo.sklearn self x column E)
    as [scores [d0 [rest [Hp [Hs [Hc Hb]]]]]].
  exists column, scores. split; [reflexivity|]. split; [exact Hp|].
  split; [|exact Hb].
  vm_compute in Hp. inversion Hp; subst scores.
  inversion Hs; subst d0 rest. exact Hc.
Defined.

(** A batch without any axis: the model's [predict] raises, and so does
    the score. *)
Lemma protected_score_failures_witness :
  let self := {| GaussianProcessOracle.dataset := Demo.tokens;
                 GaussianProcessOracle.model := None |} in
  let x := IntArray {| np.shape := []; np.data := [7]%Z |} in
  model_predict None x = Raise IndexError /\
  GaussianProcessOracle.protected_score self x = Raise IndexError.
Proof.
  intros self x. split; [reflexivity|].
  apply (proj2 (@protected_score_failures Demo.sklearn self x IndexError)).
  left. reflexivity.
Defined.
